(** * unt-scan: a shallow embedding of [unt-scan.py] and its properties

    The script downloads the advisory database published by the
    distribution's security team, keeps a small cache of it on disk,
    filters it for one release and reports installed packages that are
    older than the fixed version, remembering which advisories were
    already reported.

    The embedding follows the script top to bottom: the
    [AlertRegistry] class, [database_file], [filter_db],
    [get_codename], [show_age] and the [__main__] block.  Files, the
    HTTP server, standard output and the process exit are explicit: a
    computation is a function from a [State] to a result and a new
    [State]. *)

From Stdlib Require Import ZArith List Ascii String Lia.
From stdpp Require Import gmap strings list.

Open Scope string_scope.
Open Scope list_scope.
Open Scope Z_scope.

(** ** Python values that reach the release codename

    [codename] is a [str] when it comes from [get_codename], [None]
    when [get_codename] falls off its loop, and a [list] when it is
    bound to [args]. *)

Inductive pyval :=
| PStr (s : string)
| PList (l : list string)
| PNone.

(** ** Exceptions and results *)

Inductive exn :=
| FileNotFoundError (path : string)
| UnpicklingError
| HTTPException
| PyException (msg : string)
| RuntimeError (msg : string)
| TypeError.

(** A statement returns, raises, or leaves through [sys.exit]
    ([SystemExit] is not an [Exception], so [except Exception] lets it
    through). *)

Inductive res (A : Type) :=
| Ret (a : A)
| Raise (e : exn)
| SysExit (n : Z).

Arguments Ret {A} a.
Arguments Raise {A} e.
Arguments SysExit {A} n.

(** ** Persistent storage *)

Definition bytes := list Byte.byte.

(** What this program writes to a file: a pickled list of advisory
    ids ([alerts.pickle]), a pickled header dictionary
    ([db.metadata.pickle]) or a raw response body ([db.pickle]).  The
    program writes each kind under its own name, so a reader meets the
    kind it unpickles or no file; for a file of another kind the model
    lets the reader fail, and nothing is stated about the program on
    such a file. *)

Inductive file :=
| FIds (ids : list string)
| FHeaders (h : gmap string string)
| FBody (b : bytes).

(** [files] and [dirs] are what is on disk under the paths the program
    opens; [lsb_release] is the host's [/etc/lsb-release] as
    [readlines()] returns it, [None] when the file is missing. *)

Record World := mkWorld {
  files : gmap string file;
  dirs : gset string;
  lsb_release : option (list string)
}.

(** ** The yielded dictionaries and the printed report *)

Record item := mkItem {
  unt : string;
  name : string;
  version : string;
  summary : string;
  cves : list string
}.

Record report := mkReport {
  alert : item;
  installed_version : string
}.

Inductive out_item :=
| Line (s : string)
| Help (directory : string) (codename : pyval)
| Report (r : report).

Inductive request :=
| HEAD
| GET.

Record State := mkState {
  world : World;
  stdout : list out_item;
  requests : list request
}.

(** ** The computation monad *)

Definition M (A : Type) : Type := State → res A * State.

Definition ret {A} (a : A) : M A := fun s => (Ret a, s).

Definition bind {A B} (k : A → M B) (m : M A) : M B :=
  fun s =>
    match m s with
    | (Ret a, s') => k a s'
    | (Raise e, s') => (Raise e, s')
    | (SysExit n, s') => (SysExit n, s')
    end.

#[global] Instance M_ret : MRet M := @ret.
#[global] Instance M_bind : MBind M := @bind.

Definition raise {A} (e : exn) : M A := fun s => (Raise e, s).

Definition sys_exit {A} (n : Z) : M A := fun s => (SysExit n, s).

(** [try: m except FileNotFoundError: h] *)
Definition try_file_not_found {A} (m : M A) (h : M A) : M A :=
  fun s =>
    match m s with
    | (Raise (FileNotFoundError _), s') => h s'
    | r => r
    end.

(** [try: m except Exception: h] *)
Definition try_exception {A} (m : M A) (h : M A) : M A :=
  fun s =>
    match m s with
    | (Raise _, s') => h s'
    | r => r
    end.

Definition print (o : out_item) : M unit :=
  fun s => (Ret tt, mkState (world s) (stdout s ++ [o]) (requests s)).

Definition open_read (path : string) : M file :=
  fun s =>
    match files (world s) !! path with
    | Some f => (Ret f, s)
    | None => (Raise (FileNotFoundError path), s)
    end.

Definition write_file (path : string) (f : file) : M unit :=
  fun s =>
    (Ret tt,
     mkState (mkWorld (<[path := f]> (files (world s))) (dirs (world s))
                      (lsb_release (world s)))
             (stdout s) (requests s)).

(** [os.path.join(d, f)] for a relative [f]. *)
Definition ends_with_slash (d : string) : bool :=
  match rev (list_ascii_of_string d) with
  | c :: _ => Ascii.eqb c "/"%char
  | [] => false
  end.

Definition path_join (d f : string) : string :=
  if String.eqb d "" then f
  else if ends_with_slash d then (d ++ f)%string
  else (d ++ "/" ++ f)%string.

(** ** class AlertRegistry *)

Record AlertRegistry := mkRegistry {
  storage_file : string;
  registry : list string
}.

Definition register (u : string) (self : AlertRegistry) : AlertRegistry :=
  mkRegistry (storage_file self) (registry self ++ [u]).

Definition is_registered (u : string) (self : AlertRegistry) : bool :=
  bool_decide (u ∈ registry self).

Definition save (self : AlertRegistry) : M unit :=
  write_file (storage_file self) (FIds (registry self)).

Definition load_ids (f : file) : M (list string) :=
  match f with
  | FIds ids => ret ids
  | _ => raise UnpicklingError
  end.

Definition AlertRegistry_init (path : string) : M AlertRegistry :=
  try_file_not_found
    (f ← open_read path;
     ids ← load_ids f;
     ret (mkRegistry path ids))
    (let self := mkRegistry path [] in
     save self;;
     ret self).

(** ** CONFIG *)

Record Config := mkConfig {
  PERSISTENT_STORAGE : bool;
  DIRECTORY : string;
  ALERT_ONCE : bool;
  PICKLE_HOST : string;
  PICKLE_URL : string;
  HTTPS : bool
}.

Definition CONFIG : Config :=
  mkConfig true "/var/lib/unt-scan" true
           "people.canonical.com" "/~ubuntu-security/usn/database.pickle" true.

(** ** The advisory database

    [db] is a dictionary from advisory id to [content]; it is iterated
    with [items()], and so is [binaries]: both are kept as association
    lists in iteration order.  [releases] is only tested for a key and
    indexed. *)

Record binary := mkBinary {
  b_version : string
}.

Record release := mkRelease {
  binaries : list (string * binary)
}.

Record content := mkContent {
  c_releases : gmap string release;
  c_isummary : option string;
  c_summary : option string;
  c_cves : list string
}.

Definition feed := list (string * content).

(** [release_codename in list(content['releases'].keys())] followed by
    [content['releases'][release_codename]]: the keys are [str], and a
    [list] or [None] equals none of them. *)
Definition lookup_release (c : content) (release_codename : pyval) : option release :=
  match release_codename with
  | PStr s => c_releases c !! s
  | PList _ => None
  | PNone => None
  end.

Definition resolve_summary (c : content) : string :=
  match c_isummary c with
  | Some s => s
  | None =>
    match c_summary c with
    | Some s => s
    | None => "No summary"
    end
  end.

Fixpoint yield_binaries (u : string) (c : content)
    (bins : list (string * binary)) : list item :=
  match bins with
  | [] => []
  | (package, contents) :: rest =>
    mkItem u package (b_version contents) (resolve_summary c) (c_cves c)
      :: yield_binaries u c rest
  end.

Fixpoint filter_db (db : feed) (release_codename : pyval) : list item :=
  match db with
  | [] => []
  | (u, c) :: rest =>
    match lookup_release c release_codename with
    | None => filter_db rest release_codename
    | Some rel =>
      yield_binaries u c (binaries rel) ++ filter_db rest release_codename
    end
  end.

(** ** get_codename *)

Definition py_isspace (c : ascii) : bool :=
  let n := Z.of_nat (nat_of_ascii c) in
  ((9 <=? n) && (n <=? 13)) || ((28 <=? n) && (n <=? 32)).

Fixpoint lstrip_list (l : list ascii) : list ascii :=
  match l with
  | [] => []
  | c :: rest => if py_isspace c then lstrip_list rest else l
  end.

Definition rstrip (s : string) : string :=
  string_of_list_ascii (rev (lstrip_list (rev (list_ascii_of_string s)))).

Fixpoint split_on (sep : ascii) (s : string) : list string :=
  match s with
  | EmptyString => [EmptyString]
  | String c rest =>
    if Ascii.eqb c sep then EmptyString :: split_on sep rest
    else
      match split_on sep rest with
      | [] => [String c EmptyString]
      | w :: ws => String c w :: ws
      end
  end.

Fixpoint codename_of_lines (lines : list string) : pyval :=
  match lines with
  | [] => PNone
  | line :: rest =>
    if String.prefix "DISTRIB_CODENAME=" line
    then PStr (rstrip (nth 1%nat (split_on "="%char line) ""))
    else codename_of_lines rest
  end.

Definition get_codename : M pyval :=
  fun s =>
    match lsb_release (world s) with
    | Some lines => (Ret (codename_of_lines lines), s)
    | None => (Raise (FileNotFoundError "/etc/lsb-release"), s)
    end.

(** ** The HTTP server *)

Record response := mkResponse {
  status : Z;
  getheaders : list (string * string);
  body : bytes
}.

(** What the server answers to each request; [None] when the
    connection fails or times out and [http.client] raises.
    [body_breaks] says that the body of the GET response cannot be
    read to its end: the connection breaks or times out and
    [response.read()] raises. *)
Record Server := mkServer {
  on_head : option response;
  on_get : option response;
  body_breaks : bool
}.

Definition answer (srv : Server) (r : request) : option response :=
  match r with
  | HEAD => on_head srv
  | GET => on_get srv
  end.

Definition http_request (srv : Server) (r : request) : M response :=
  fun s =>
    let s' := mkState (world s) (stdout s) (requests s ++ [r]) in
    match answer srv r with
    | Some resp => (Ret resp, s')
    | None => (Raise HTTPException, s')
    end.

(** [response.read()] on the response of a GET. *)
Definition read_body (srv : Server) (resp : response) : M bytes :=
  if body_breaks srv then raise HTTPException else mret (body resp).

(** ** database_file *)

(** [for item in headers_tuples: headers[item[0]] = item[1]] *)
Definition restructure (headers_tuples : list (string * string)) : gmap string string :=
  foldl (fun headers item => <[item.1 := item.2]> headers) ∅ headers_tuples.

Definition load_headers (f : file) : M (gmap string string) :=
  match f with
  | FHeaders h => ret h
  | _ => raise UnpicklingError
  end.

(** The value of [update] after lines 131-137. *)
Definition needs_update (headers old_headers : gmap string string) : bool :=
  match headers !! "ETag", old_headers !! "ETag" with
  | Some etag, Some old_etag =>
    if String.eqb etag old_etag then false else true
  | _, _ =>
    match headers !! "Last-Modified", old_headers !! "Last-Modified" with
    | Some modified, Some old_modified =>
      if String.ltb old_modified modified then false else true
    | _, _ => true
    end
  end.

Definition metadata_path (cfg : Config) : string :=
  path_join (DIRECTORY cfg) "db.metadata.pickle".

Definition db_path (cfg : Config) : string :=
  path_join (DIRECTORY cfg) "db.pickle".

Definition alerts_path (cfg : Config) : string :=
  path_join (DIRECTORY cfg) "alerts.pickle".

Definition database_file (cfg : Config) (srv : Server) : M file :=
  if negb (PERSISTENT_STORAGE cfg) then
    resp ← http_request srv GET;
    b ← read_body srv resp;
    ret (FBody b)
  else
    resp ← http_request srv HEAD;
    if negb (status resp =? 200) then
      raise (PyException "Unexpected response while doing HEAD request")
    else
      let headers := restructure (getheaders resp) in
      old_headers ← try_file_not_found
                      (f ← open_read (metadata_path cfg); load_headers f)
                      (ret ∅);
      write_file (metadata_path cfg) (FHeaders headers);;
      cached ← (if needs_update headers old_headers then ret None
                else try_exception
                       (f ← open_read (db_path cfg); ret (Some f))
                       (ret None));
      match cached with
      | Some f => ret f
      | None =>
        resp ← http_request srv GET;
        if negb (status resp =? 200) then
          raise (PyException "Error retrieving pickle database")
        else
          (* open(..., 'wb+') empties the file before the body is read *)
          write_file (db_path cfg) (FBody []);;
          b ← read_body srv resp;
          write_file (db_path cfg) (FBody b);;
          ret (FBody b)
      end.

Section Host.

(** The collaborators the script imports: the decoder of the pickled
    database, the package cache of [apt], the version comparison of
    [apt_pkg], and the date functions of [email.utils] and [time]. *)

Variable unpickle_db : bytes → option feed.

(** [cache n] is [None] when [n not in cache], [Some None] when the
    package is known but not installed, [Some (Some v)] when
    [cache[n].installed.version] is [v]. *)
Variable cache : string → option (option string).

Variable version_compare : string → string → Z.

Variable timetuple : Type.

(** [email.utils.parsedate], [None] for a value it cannot parse. *)
Variable parsedate : string → option timetuple.

(** ['{:.0f}'.format(time.time() - time.mktime(age))], [None] when
    [time.mktime] raises. *)
Variable format_age : timetuple → option string.

Variable srv : Server.

(** ** show_age *)

Definition show_age (cfg : Config) : M unit :=
  try_exception
    (f ← open_read (metadata_path cfg);
     headers ← load_headers f;
     match headers !! "Last-Modified" with
     | Some v =>
       match parsedate v with
       | Some age =>
         match format_age age with
         | Some text => print (Line text)
         | None => raise TypeError
         end
       | None => raise TypeError
       end
     | None => ret tt
     end)
    (print (Line "0")).

Definition show_help (cfg : Config) : M unit :=
  c ← get_codename;
  print (Help (DIRECTORY cfg) c).

(** ** The scan loop, lines 276-292 *)

Definition scan_body (cfg : Config) (package : item)
    (st : AlertRegistry * bool) : M (AlertRegistry * bool) :=
  match cache (name package) with
  | Some (Some installed) =>
    if version_compare installed (version package) <? 0 then
      let alert :=
        if ALERT_ONCE cfg then negb (is_registered (unt package) st.1)
        else true in
      if alert then
        print (Report (mkReport package installed));;
        ret (register (unt package) st.1, true)
      else ret st
    else ret st
  | _ => ret st
  end.

Fixpoint scan (cfg : Config) (packages : list item)
    (st : AlertRegistry * bool) : M (AlertRegistry * bool) :=
  match packages with
  | [] => ret st
  | package :: rest =>
    st' ← scan_body cfg package st;
    scan cfg rest st'
  end.

(** Lines 274-297: load the registry, scan, save, exit. *)
Definition scan_and_exit (cfg : Config) (db : feed) (codename : pyval) : M unit :=
  registry ← AlertRegistry_init (alerts_path cfg);
  '(registry, issues_found) ← scan cfg (filter_db db codename) (registry, false);
  save registry;;
  if issues_found : bool then sys_exit 1 else ret tt.

(** ** __main__ *)

Definition in2 (o a b : string) : bool := String.eqb o a || String.eqb o b.

(** The option loop, lines 239-254; [codename] is [None] while the
    name is unbound. *)
Fixpoint process_opts (args : list string) (opts : list (string * string))
    (cfg : Config) (codename : option pyval) : M (Config * option pyval) :=
  match opts with
  | [] => ret (cfg, codename)
  | (o, a) :: rest =>
    if in2 o "-h" "--help" then
      show_help cfg;; sys_exit 0
    else if in2 o "-d" "--directory=" then
      process_opts args rest
        (mkConfig true a (ALERT_ONCE cfg)
                  (PICKLE_HOST cfg) (PICKLE_URL cfg) (HTTPS cfg))
        codename
    else if in2 o "-a" "--all" then
      process_opts args rest
        (mkConfig (PERSISTENT_STORAGE cfg) (DIRECTORY cfg) false
                  (PICKLE_HOST cfg) (PICKLE_URL cfg) (HTTPS cfg))
        codename
    else if in2 o "-o" "--once" then
      process_opts args rest
        (mkConfig (PERSISTENT_STORAGE cfg) (DIRECTORY cfg) true
                  (PICKLE_HOST cfg) (PICKLE_URL cfg) (HTTPS cfg))
        codename
    else if in2 o "-c" "--codename=" then
      process_opts args rest cfg (Some (PList args))
    else if in2 o "-A" "--age" then
      show_age cfg;; sys_exit 0
    else process_opts args rest cfg codename
  end.

Definition ensure_directory (cfg : Config) : M unit :=
  fun s =>
    let d := DIRECTORY cfg in
    if bool_decide (d ∈ dirs (world s)) then (Ret tt, s)
    else if bool_decide (is_Some (files (world s) !! d)) then
      (Raise (PyException "exists, but is not a directory."), s)
    else
      (Ret tt,
       mkState (mkWorld (files (world s)) ({[d]} ∪ dirs (world s))
                        (lsb_release (world s)))
               (stdout s) (requests s)).

Definition pickle_load_db (f : file) : M feed :=
  match f with
  | FBody b =>
    match unpickle_db b with
    | Some db => ret db
    | None => raise UnpicklingError
    end
  | _ => raise UnpicklingError
  end.

(** [getopt_result] is what [getopt.getopt] made of [sys.argv[1:]]:
    the message of a [GetoptError], or the pair [(opts, args)]. *)
Definition main (getopt_result : string + list (string * string) * list string) : M unit :=
  match getopt_result with
  | inl err => print (Line err);; sys_exit 2
  | inr (opts, args) =>
    '(cfg, bound) ← process_opts args opts CONFIG None;
    if ALERT_ONCE cfg && negb (PERSISTENT_STORAGE cfg) then
      raise (RuntimeError "Cannot track alerts without persistent storage.")
    else
      codename ← match bound with
                 | Some c => ret c
                 | None => get_codename
                 end;
      ensure_directory cfg;;
      db_file ← database_file cfg srv;
      db ← pickle_load_db db_file;
      scan_and_exit cfg db codename
  end.

(** The exit status of the process: falling off the end of the script
    is status 0, [sys.exit(n)] is [n], and a run ended by an uncaught
    exception is ended by the interpreter with a traceback and
    status 1. *)
Definition exit_status {A} (r : res A) : Z :=
  match r with
  | Ret _ => 0
  | SysExit n => n
  | Raise _ => 1
  end.

(** The reports among what a run printed. *)
Definition reports (out : list out_item) : list report :=
  omap (fun o => match o with Report r => Some r | _ => None end) out.

End Host.

(** ** The version comparator *)

Module VersionComparator.

(** Modelled from the spec: [apt_pkg.version_compare], the comparison
    the scan calls at line 279 and that the [apt_pkg] extension module
    provides; the script holds no code of it.  The definitions follow
    the "VersionComparator" section of the specification: a version is
    [[epoch:]upstream-version[-debian-revision]], a missing epoch is 0,
    epochs compare as unsigned integers first, then the upstream
    version and the revision are compared by alternating maximal runs
    of non-digit and digit characters.  The specification leaves open
    which colon and which hyphen separate the parts; the first colon
    and the last hyphen are taken here. *)

Definition is_digit (c : ascii) : bool :=
  let n := Z.of_nat (nat_of_ascii c) in (48 <=? n) && (n <=? 57).

Definition is_alpha (c : ascii) : bool :=
  let n := Z.of_nat (nat_of_ascii c) in
  ((65 <=? n) && (n <=? 90)) || ((97 <=? n) && (n <=? 122)).

(** The modified ordering of non-digit characters: [~] before the
    empty string (0), letters by their code, the other characters
    after every letter. *)
Definition order (c : ascii) : Z :=
  if Ascii.eqb c "~"%char then -1
  else if is_alpha c then Z.of_nat (nat_of_ascii c)
  else Z.of_nat (nat_of_ascii c) + 256.

Definition digits_value (ds : list ascii) : Z :=
  foldl (fun acc d => 10 * acc + (Z.of_nat (nat_of_ascii d) - 48)) 0 ds.

(** One non-digit run followed by one digit run; either may be empty. *)
Definition run : Type := list ascii * list ascii.

Fixpoint runs (s : list ascii) : list run :=
  match s with
  | [] => []
  | c :: rest =>
    match runs rest with
    | [] => if is_digit c then [([], [c])] else [([c], [])]
    | (nd, d) :: tl =>
      if is_digit c then
        match nd with
        | [] => ([], c :: d) :: tl
        | _ :: _ => ([], [c]) :: (nd, d) :: tl
        end
      else (c :: nd, d) :: tl
    end
  end.

Fixpoint cmp_nondigit (a b : list ascii) : comparison :=
  match a, b with
  | [], [] => Eq
  | x :: _, [] => Z.compare (order x) 0
  | [], y :: _ => Z.compare 0 (order y)
  | x :: a', y :: b' =>
    match Z.compare (order x) (order y) with
    | Eq => cmp_nondigit a' b'
    | r => r
    end
  end.

Definition cmp_run (a b : run) : comparison :=
  match cmp_nondigit a.1 b.1 with
  | Eq => Z.compare (digits_value a.2) (digits_value b.2)
  | r => r
  end.

Definition exhausted : run := ([], []).

Fixpoint cmp_after_left (rb : list run) : comparison :=
  match rb with
  | [] => Eq
  | b :: rb' =>
    match cmp_run exhausted b with
    | Eq => cmp_after_left rb'
    | r => r
    end
  end.

Fixpoint cmp_runs (ra rb : list run) : comparison :=
  match ra with
  | [] => cmp_after_left rb
  | a :: ra' =>
    match rb with
    | [] =>
      match cmp_run a exhausted with
      | Eq => cmp_runs ra' []
      | r => r
      end
    | b :: rb' =>
      match cmp_run a b with
      | Eq => cmp_runs ra' rb'
      | r => r
      end
    end
  end.

Definition cmp_segment (a b : list ascii) : comparison :=
  cmp_runs (runs a) (runs b).

(** [split_first sep s]: the parts before and after the first [sep]. *)
Fixpoint split_first (sep : ascii) (s : list ascii) : option (list ascii * list ascii) :=
  match s with
  | [] => None
  | c :: rest =>
    if Ascii.eqb c sep then Some ([], rest)
    else
      match split_first sep rest with
      | Some (before, after) => Some (c :: before, after)
      | None => None
      end
  end.

Definition split_last (sep : ascii) (s : list ascii) : option (list ascii * list ascii) :=
  match split_first sep (rev s) with
  | Some (after, before) => Some (rev before, rev after)
  | None => None
  end.

Record parsed := mkParsed {
  epoch : Z;
  upstream : list ascii;
  revision : list ascii
}.

Definition parse (v : string) : parsed :=
  let l := list_ascii_of_string v in
  let (e, body) :=
    match split_first ":"%char l with
    | Some (before, after) => (digits_value before, after)
    | None => (0, l)
    end in
  match split_last "-"%char body with
  | Some (up, rev) => mkParsed e up rev
  | None => mkParsed e body []
  end.

Definition compare (a b : string) : comparison :=
  let pa := parse a in
  let pb := parse b in
  match Z.compare (epoch pa) (epoch pb) with
  | Eq =>
    match cmp_segment (upstream pa) (upstream pb) with
    | Eq => cmp_segment (revision pa) (revision pb)
    | r => r
    end
  | r => r
  end.

(** The integer [apt_pkg.version_compare] hands to the scan: negative,
    zero or positive. *)
Definition version_compare (a b : string) : Z :=
  match compare a b with
  | Lt => -1
  | Eq => 0
  | Gt => 1
  end.

End VersionComparator.

(** * The vocabulary of the statements *)

(** A process starts with nothing printed and no request sent. *)
Definition fresh (w : World) : State := mkState w [] [].

Section Vulnerable.

Variable cache : string → option (option string).
Variable version_compare : string → string → Z.

(** The installed version of a package that the loop finds older than
    the fixed one. *)
Definition vulnerable (package : item) : option string :=
  match cache (name package) with
  | Some (Some installed) =>
    if version_compare installed (version package) <? 0 then Some installed
    else None
  | _ => None
  end.

Definition reported_id (r : report) : string := unt (alert r).

(** What the loop prints when it starts with the ids [reg] registered. *)
Fixpoint emitted (once : bool) (packages : list item) (reg : list string) : list report :=
  match packages with
  | [] => []
  | package :: rest =>
    match vulnerable package with
    | Some installed =>
      if once && bool_decide (unt package ∈ reg) then emitted once rest reg
      else mkReport package installed :: emitted once rest (reg ++ [unt package])
    | None => emitted once rest reg
    end
  end.

(** The reports of all the vulnerable packages of a sequence. *)
Definition vulnerable_reports (packages : list item) : list report :=
  omap (fun p => mkReport p <$> vulnerable p) packages.

End Vulnerable.

(** The ids stored at [alerts.pickle] as the registry will load them:
    the pickled list, the empty list when there is no file, nothing
    when the file holds something else. *)
Definition stored_ids (cfg : Config) (s : State) : option (list string) :=
  match files (world s) !! alerts_path cfg with
  | Some (FIds ids) => Some ids
  | Some _ => None
  | None => Some []
  end.

(** The dictionary the generator yields for a package of an advisory. *)
Definition tuple_of (u : string) (c : content) (package : string) (contents : binary) : item :=
  mkItem u package (b_version contents) (resolve_summary c) (c_cves c).

(** The tuples of the sequence that belong to a pair. *)
Definition tuples_for (u package : string) (l : list item) : list item :=
  filter (fun t => unt t = u ∧ name t = package) l.

(** A quiet computation adds no report to the output and leaves the
    process, if at all, with status 0. *)
Definition quiet {A} (m : M A) : Prop :=
  ∀ s r s', m s = (r, s') →
    reports (stdout s') = reports (stdout s) ∧ ∀ n, r = SysExit n → n = 0.

(** A computation exits right when it ends with status 1 exactly after
    adding a report, and otherwise returns or exits with status 0
    without adding one. *)
Definition exits_right {A} (m : M A) : Prop :=
  ∀ s r s', m s = (r, s') →
    match r with
    | Ret _ => reports (stdout s') = reports (stdout s)
    | SysExit n =>
      (n = 0 ∧ reports (stdout s') = reports (stdout s))
      ∨ (n = 1 ∧ ∃ new, new ≠ [] ∧ reports (stdout s') = reports (stdout s) ++ new)
    | Raise _ => True
    end.

(** The headers stored at [db.metadata.pickle] as [database_file] will
    load them: the pickled dictionary, the empty dictionary when there
    is no file, nothing when the file holds something else. *)
Definition stored_headers (cfg : Config) (s : State) : option (gmap string string) :=
  match files (world s) !! metadata_path cfg with
  | Some (FHeaders h) => Some h
  | Some _ => None
  | None => Some ∅
  end.

(** The state once the HEAD request is logged and its headers are
    written to [db.metadata.pickle]. *)
Definition after_head (cfg : Config) (headers : gmap string string) (s : State) : State :=
  mkState (mkWorld (<[metadata_path cfg := FHeaders headers]> (files (world s)))
                   (dirs (world s)) (lsb_release (world s)))
          (stdout s) (requests s ++ [HEAD]).

(** The state once the GET request is logged. *)
Definition after_get (s : State) : State :=
  mkState (world s) (stdout s) (requests s ++ [GET]).

(** An inert computation changes no file and sends no request. *)
Definition inert {A} (m : M A) : Prop :=
  ∀ s r s', m s = (r, s') → world s' = world s ∧ requests s' = requests s.


(** * Concrete hosts and runs *)

Module Scenario.

(** The host of the end-to-end scenario: advisory USN-42-1 fixes curl
    at 7.58.0-2ubuntu3.8 for bionic, and curl 7.58.0-2ubuntu3.6 is
    installed. *)

Definition usn_42 : content :=
  mkContent {["bionic" := mkRelease [("curl", mkBinary "7.58.0-2ubuntu3.8")]]}
            None None ["CVE-2018-1000120"].

Definition db : feed := [("USN-42-1", usn_42)].

Definition unpickle_db (b : bytes) : option feed := Some db.

Definition cache (n : string) : option (option string) :=
  if String.eqb n "curl" then Some (Some "7.58.0-2ubuntu3.6") else None.

Definition parsedate (v : string) : option unit := Some tt.

Definition format_age (age : unit) : option string := Some "3600".

Definition payload : bytes := [Byte.x80; Byte.x03].

Definition modified : string := "Tue, 16 Jan 2018 10:00:00 GMT".

Definition srv : Server :=
  mkServer (Some (mkResponse 200 [("Last-Modified", modified)] []))
           (Some (mkResponse 200 [] payload)) false.

Definition directory : string := "/var/lib/unt-scan".

Definition alerts : string := "/var/lib/unt-scan/alerts.pickle".
Definition metadata : string := "/var/lib/unt-scan/db.metadata.pickle".
Definition body_file : string := "/var/lib/unt-scan/db.pickle".

Definition newline : string := String "010" "".

(** A host of release [codename] with the files [fs] in the storage
    directory. *)
Definition disk (codename : string) (fs : list (string * file)) : World :=
  mkWorld (list_to_map fs) {[directory]}
          (Some ["DISTRIB_ID=Ubuntu" ++ newline;
                 "DISTRIB_CODENAME=" ++ codename ++ newline])%string.

Definition run (w : World) (opts : list (string * string)) (args : list string) : res unit * State :=
  main unpickle_db cache VersionComparator.version_compare unit parsedate
       format_age srv (inr (opts, args)) (fresh w).

Definition bionic : pyval := PStr "bionic".

Definition first_run : res unit * State :=
  scan_and_exit cache VersionComparator.version_compare CONFIG db bionic
                (fresh (disk "bionic" [])).

Definition second_run : res unit * State :=
  scan_and_exit cache VersionComparator.version_compare CONFIG db bionic
                (fresh (world first_run.2)).

Definition suppressed_run : res unit * State :=
  run (disk "bionic" [(alerts, FIds ["USN-42-1"])]) [] [].

Definition show_all : Config :=
  mkConfig true directory false "people.canonical.com"
           "/~ubuntu-security/usn/database.pickle" true.

(** Two packages of one advisory, both installed and both older than
    the fix. *)
Definition usn_7 : content :=
  mkContent {["bionic" := mkRelease [("curl", mkBinary "7.58.0-2ubuntu3.8");
                                     ("libcurl4", mkBinary "7.58.0-2ubuntu3.8")]]}
            (Some "curl could be made to crash") None ["CVE-2018-1000300"].

Definition both_installed (n : string) : option (option string) :=
  if String.eqb n "curl" || String.eqb n "libcurl4"
  then Some (Some "7.58.0-2ubuntu3.6") else None.

(** A server that is down for maintenance, and one that sends an
    [ETag]. *)
Definition down : Server := mkServer (Some (mkResponse 503 [] [])) None false.

Definition tagged : Server :=
  mkServer (Some (mkResponse 200 [("ETag", "v2"); ("Last-Modified", modified)] []))
           (Some (mkResponse 200 [] payload)) false.


(** The tuple of the scenario, the scan loop on it, a run against the
    server that is down, and a line of the host file. *)
Definition curl_42 : item :=
  mkItem "USN-42-1" "curl" "7.58.0-2ubuntu3.8" "No summary" ["CVE-2018-1000120"].

Definition scanned : res (AlertRegistry * bool) * State :=
  scan cache VersionComparator.version_compare CONFIG (filter_db db bionic)
       (mkRegistry alerts [], false) (fresh (disk "bionic" [])).

Definition down_run : res unit * State :=
  main unpickle_db cache VersionComparator.version_compare unit parsedate
       format_age down (inr ([], [])) (fresh (disk "bionic" [(alerts, FIds ["USN-1"])])).


End Scenario.


(** * Properties *)

(** ** The alert registry *)

Lemma elem_of_register (u v : string) (r : AlertRegistry) :
  v ∈ registry (register u r) ↔ v ∈ registry r ∨ v = u.
Proof.
  unfold register; simpl. rewrite elem_of_app, list_elem_of_singleton. tauto.
Qed.

Lemma is_registered_true (u : string) (r : AlertRegistry) :
  is_registered u r = true ↔ u ∈ registry r.
Proof. unfold is_registered. apply bool_decide_eq_true. Qed.

Lemma is_registered_false (u : string) (r : AlertRegistry) :
  is_registered u r = false ↔ u ∉ registry r.
Proof. unfold is_registered. apply bool_decide_eq_false. Qed.

Lemma init_existing (path : string) (ids : list string) (s : State) :
  files (world s) !! path = Some (FIds ids) →
  AlertRegistry_init path s = (Ret (mkRegistry path ids), s).
Proof.
  intros Hf. unfold AlertRegistry_init, try_file_not_found.
  unfold mbind, M_bind, bind, open_read. rewrite Hf. reflexivity.
Qed.

Lemma init_missing (path : string) (s : State) :
  files (world s) !! path = None →
  AlertRegistry_init path s
  = (Ret (mkRegistry path []), (save (mkRegistry path []) s).2).
Proof.
  intros Hf. unfold AlertRegistry_init, try_file_not_found.
  unfold mbind, M_bind, bind, open_read. rewrite Hf. reflexivity.
Qed.

Lemma save_lookup (r : AlertRegistry) (s : State) :
  files (world (save r s).2) !! storage_file r = Some (FIds (registry r)).
Proof. unfold save, write_file; simpl. apply lookup_insert_eq. Qed.

(** C6: a registry in which [u] (the claim's "USN-1") was registered and
    that was saved is read back, from the same path, as a registry
    where [u] is registered and where an id that was not registered is
    not; and creating a registry on a path that holds no file gives
    the empty registry and leaves the empty list stored at that
    path. *)
Theorem registry_round_trip (u other path : string) (r : AlertRegistry) (s : State) :
  (∃ r2 s2,
      AlertRegistry_init (storage_file r) (save (register u r) s).2 = (Ret r2, s2)
      ∧ is_registered u r2 = true
      ∧ (other ∉ registry (register u r) → is_registered other r2 = false))
  ∧ (files (world s) !! path = None →
     ∃ r0 s0,
       AlertRegistry_init path s = (Ret r0, s0)
       ∧ registry r0 = []
       ∧ files (world s0) !! path = Some (FIds [])).
Proof.
  split.
  - exists (register u r), (save (register u r) s).2. split; [|split].
    + apply (init_existing (storage_file r) (registry (register u r))).
      apply (save_lookup (register u r)).
    + apply is_registered_true, elem_of_register. by right.
    + intros Hn. by apply is_registered_false.
  - intros Hf. eexists _, _. split; [by apply init_missing|]. split; [done|].
    apply (save_lookup (mkRegistry path [])).
Qed.

(** ** The scan loop *)

Section Scan.

Variable cache : string → option (option string).
Variable version_compare : string → string → Z.

Abbreviation vulnerable := (vulnerable cache version_compare).
Abbreviation emitted := (emitted cache version_compare).
Abbreviation vulnerable_reports := (vulnerable_reports cache version_compare).

Lemma scan_spec (cfg : Config) (packages : list item) (r : AlertRegistry)
    (found : bool) (s : State) :
  let rs := emitted (ALERT_ONCE cfg) packages (registry r) in
  scan cache version_compare cfg packages (r, found) s
  = (Ret (mkRegistry (storage_file r) (registry r ++ map reported_id rs),
          found || negb (bool_decide (rs = []))),
     mkState (world s) (stdout s ++ map Report rs) (requests s)).
Proof.
  revert r found s.
  induction packages as [|p rest IH]; intros r found s; simpl.
  - rewrite !app_nil_r, orb_false_r. by destruct r, s.
  - unfold mbind, M_bind, bind, scan_body, vulnerable.
    destruct (cache (name p)) as [[installed|]|]; simpl; try apply IH.
    destruct (version_compare installed (version p) <? 0); simpl; try apply IH.
    unfold is_registered.
    destruct (ALERT_ONCE cfg); simpl.
    + destruct (bool_decide (unt p ∈ registry r)); simpl; [apply IH|].
      rewrite (IH (register (unt p) r) true); simpl.
      rewrite orb_true_r, <- !app_assoc. reflexivity.
    + rewrite (IH (register (unt p) r) true); simpl.
      rewrite orb_true_r, <- !app_assoc. reflexivity.
Qed.

Lemma reports_app (o1 o2 : list out_item) :
  reports (o1 ++ o2) = reports o1 ++ reports o2.
Proof. apply omap_app. Qed.

Lemma reports_Report (rs : list report) : reports (map Report rs) = rs.
Proof. induction rs as [|r rs IH]; simpl; [done|]. unfold reports in *. simpl. by rewrite IH. Qed.

(** Under alert-once every reported id was unregistered at the start
    and is reported once. *)
Lemma emitted_once_fresh (packages : list item) (reg : list string) (r : report) :
  r ∈ emitted true packages reg → reported_id r ∉ reg.
Proof.
  revert reg. induction packages as [|p rest IH]; intros reg; simpl.
  - by intros ?%elem_of_nil.
  - destruct (vulnerable p) as [installed|]; [|apply IH].
    destruct (bool_decide_reflect (unt p ∈ reg)) as [Hin|Hout]; [apply IH|].
    intros [->|Hr]%elem_of_cons; [done|].
    apply IH in Hr. intros Hreg. apply Hr, elem_of_app. by left.
Qed.

Lemma emitted_once_NoDup (packages : list item) (reg : list string) :
  NoDup (map reported_id (emitted true packages reg)).
Proof.
  revert reg. induction packages as [|p rest IH]; intros reg; simpl.
  - constructor.
  - destruct (vulnerable p) as [installed|]; [|apply IH].
    destruct (bool_decide (unt p ∈ reg)); [apply IH|]. simpl.
    constructor; [|apply IH].
    intros (r & Hid & Hr)%list_elem_of_fmap.
    apply emitted_once_fresh in Hr. apply Hr, elem_of_app. right.
    rewrite <- Hid. unfold reported_id; simpl. by apply list_elem_of_singleton.
Qed.

(** Every report is of a vulnerable package of the sequence. *)
Lemma emitted_vulnerable (once : bool) (packages : list item) (reg : list string) (r : report) :
  r ∈ emitted once packages reg →
  alert r ∈ packages ∧ vulnerable (alert r) = Some (installed_version r).
Proof.
  revert reg. induction packages as [|p rest IH]; intros reg; simpl.
  - by intros ?%elem_of_nil.
  - destruct (vulnerable p) as [installed|] eqn:Hv.
    + destruct (once && bool_decide (unt p ∈ reg)).
      * intros [? ?]%IH. split; [by right|done].
      * intros [->|[? ?]%IH]%elem_of_cons; simpl; split; try done; by constructor.
    + intros [? ?]%IH. split; [by right|done].
Qed.

(** A vulnerable package whose id is registered neither at the start
    nor by an earlier package of the sequence is reported. *)
Lemma emitted_once_first (pre post : list item) (p : item) (installed : string)
    (reg : list string) :
  vulnerable p = Some installed →
  unt p ∉ reg →
  (∀ q, q ∈ pre → vulnerable q ≠ None → unt q ≠ unt p) →
  mkReport p installed ∈ emitted true (pre ++ p :: post) reg.
Proof.
  intros Hv. revert reg. induction pre as [|q pre IH]; intros reg Hreg Hpre; simpl.
  - rewrite Hv. rewrite bool_decide_eq_false_2 by done. by left.
  - destruct (vulnerable q) as [iq|] eqn:Hq.
    + assert (unt q ≠ unt p) as Hne.
      { apply Hpre; [by left|]. by rewrite Hq. }
      destruct (bool_decide (unt q ∈ reg)).
      * apply IH; [done|]. intros q' Hq'. apply Hpre. by right.
      * right. apply IH.
        -- intros [?|?%list_elem_of_singleton]%elem_of_app; [done|]. by apply Hne.
        -- intros q' Hq'. apply Hpre. by right.
    + apply IH; [done|]. intros q' Hq'. apply Hpre. by right.
Qed.

Lemma emitted_all (packages : list item) (reg : list string) :
  emitted false packages reg = vulnerable_reports packages.
Proof.
  revert reg. induction packages as [|p rest IH]; intros reg; simpl; [done|].
  unfold vulnerable_reports; simpl.
  destruct (vulnerable p) as [installed|]; simpl; [|apply IH].
  f_equal. apply IH.
Qed.

Lemma scan_and_exit_spec (cfg : Config) (db : feed) (codename : pyval)
    (s : State) (ids : list string) :
  stored_ids cfg s = Some ids →
  let rs := emitted (ALERT_ONCE cfg) (filter_db db codename) ids in
  ∃ s',
    scan_and_exit cache version_compare cfg db codename s
    = (if bool_decide (rs = []) then Ret tt else SysExit 1, s')
    ∧ stdout s' = stdout s ++ map Report rs
    ∧ requests s' = requests s
    ∧ files (world s') !! alerts_path cfg = Some (FIds (ids ++ map reported_id rs)).
Proof.
  unfold stored_ids. intros Hids. simpl.
  set (rs := emitted (ALERT_ONCE cfg) (filter_db db codename) ids).
  unfold scan_and_exit. unfold mbind at 1, M_bind at 1, bind at 1.
  destruct (files (world s) !! alerts_path cfg) as [f|] eqn:Hf.
  - destruct f as [ids'| |]; try discriminate. injection Hids as ->.
    rewrite (init_existing _ ids) by done.
    unfold mbind, M_bind, bind. rewrite scan_spec. simpl. fold rs.
    destruct (bool_decide (rs = [])); simpl; eexists; (split; [reflexivity|]);
      simpl; repeat split; apply lookup_insert_eq.
  - injection Hids as <-. rewrite init_missing by done.
    unfold mbind, M_bind, bind. rewrite scan_spec. simpl. fold rs.
    destruct (bool_decide (rs = [])); simpl; eexists; (split; [reflexivity|]);
      simpl; repeat split; apply lookup_insert_eq.
Qed.

Lemma scan_and_exit_unreadable (cfg : Config) (db : feed) (codename : pyval) (s : State) :
  stored_ids cfg s = None →
  scan_and_exit cache version_compare cfg db codename s = (Raise UnpicklingError, s).
Proof.
  unfold stored_ids, scan_and_exit, AlertRegistry_init, try_file_not_found.
  unfold mbind, M_bind, bind, open_read.
  destruct (files (world s) !! alerts_path cfg) as [[| |]|]; try discriminate; done.
Qed.

(** C10: under alert-once one run reports an advisory id at most once,
    however many of its packages are vulnerable: the ids of the
    reports are pairwise different; the first vulnerable tuple of an
    id that is not yet registered is reported and its id is in the
    registry afterwards; and a tuple whose id is registered when it is
    processed prints nothing and registers nothing. *)
Theorem alert_once_one_report_per_id (cfg : Config) (packages : list item)
    (r : AlertRegistry) (found : bool) (s : State) :
  ALERT_ONCE cfg = true →
  ∃ r' found' rs,
    scan cache version_compare cfg packages (r, found) s
    = (Ret (r', found'),
       mkState (world s) (stdout s ++ map Report rs) (requests s))
    ∧ NoDup (map reported_id rs)
    ∧ (∀ pre p post installed,
          packages = pre ++ p :: post →
          vulnerable p = Some installed →
          is_registered (unt p) r = false →
          (∀ q, q ∈ pre → vulnerable q ≠ None → unt q ≠ unt p) →
          mkReport p installed ∈ rs ∧ is_registered (unt p) r' = true)
    ∧ (∀ q r0 found0 s0,
          is_registered (unt q) r0 = true →
          scan_body cache version_compare cfg q (r0, found0) s0
          = (Ret (r0, found0), s0)).
Proof.
  intros Honce. eexists _, _, _. split; [apply scan_spec|]. rewrite Honce.
  split; [apply emitted_once_NoDup|]. split.
  - intros pre p post installed -> Hv Hreg%is_registered_false Hpre.
    pose proof (emitted_once_first pre post p installed (registry r) Hv Hreg Hpre) as Hin.
    split; [done|]. apply is_registered_true; simpl.
    apply elem_of_app. right. apply list_elem_of_fmap. by exists (mkReport p installed).
  - intros q r0 found0 s0 Hreg. unfold scan_body. simpl. rewrite Honce, Hreg. simpl.
    destruct (cache (name q)) as [[i|]|]; try done.
    by destruct (version_compare i (version q) <? 0).
Qed.

(** C8, as the code has it: with alert-once off every vulnerable tuple
    is reported, and every report appends its advisory id to the
    registry, whether or not the id is already there. *)
Theorem show_all_reports_and_registers_each (cfg : Config) (packages : list item)
    (r : AlertRegistry) (found : bool) (s : State) :
  ALERT_ONCE cfg = false →
  let rs := vulnerable_reports packages in
  scan cache version_compare cfg packages (r, found) s
  = (Ret (mkRegistry (storage_file r) (registry r ++ map reported_id rs),
          found || negb (bool_decide (rs = []))),
     mkState (world s) (stdout s ++ map Report rs) (requests s)).
Proof.
  intros Hall rs. rewrite scan_spec, Hall. unfold rs. by rewrite emitted_all.
Qed.

(** C2: with alert-once on, two runs of the scan on the same feed and
    the same inventory, the second starting from the files the first
    left, report each advisory id at most once in all: every id the
    first run reported is in the registry file it saved and is not
    reported by the second run. *)
Theorem alert_once_idempotent (cfg : Config) (db : feed) (codename : pyval)
    (w : World) (r1 r2 : res unit) (s1 s2 : State) :
  ALERT_ONCE cfg = true →
  scan_and_exit cache version_compare cfg db codename (fresh w) = (r1, s1) →
  scan_and_exit cache version_compare cfg db codename (fresh (world s1)) = (r2, s2) →
  NoDup (map reported_id (reports (stdout s1) ++ reports (stdout s2)))
  ∧ ∀ x, x ∈ reports (stdout s1) →
      (∃ ids, files (world s1) !! alerts_path cfg = Some (FIds ids)
              ∧ reported_id x ∈ ids)
      ∧ ∀ y, y ∈ reports (stdout s2) → reported_id y ≠ reported_id x.
Proof.
  intros Honce Hrun1 Hrun2.
  destruct (stored_ids cfg (fresh w)) as [ids|] eqn:Hstored.
  - destruct (scan_and_exit_spec cfg db codename _ ids Hstored)
      as (s1' & Heq1 & Hout1 & _ & Hfile1).
    rewrite Hrun1 in Heq1. injection Heq1 as _ <-.
    rewrite Honce in Hout1, Hfile1. simpl in Hout1.
    set (rs1 := emitted true (filter_db db codename) ids) in *.
    assert (stored_ids cfg (fresh (world s1)) = Some (ids ++ map reported_id rs1)) as Hstored2.
    { unfold stored_ids; simpl. by rewrite Hfile1. }
    destruct (scan_and_exit_spec cfg db codename _ _ Hstored2)
      as (s2' & Heq2 & Hout2 & _ & _).
    rewrite Hrun2 in Heq2. injection Heq2 as _ <-.
    rewrite Honce in Hout2. simpl in Hout2.
    set (rs2 := emitted true (filter_db db codename) (ids ++ map reported_id rs1)) in *.
    rewrite Hout1, Hout2, !reports_Report.
    assert (∀ x y, x ∈ rs1 → y ∈ rs2 → reported_id y ≠ reported_id x) as Hdisj.
    { intros x y Hx Hy Heq. apply emitted_once_fresh in Hy. apply Hy.
      apply elem_of_app. right. rewrite Heq. apply list_elem_of_fmap. by exists x. }
    split.
    + rewrite map_app. apply NoDup_app. split; [apply emitted_once_NoDup|].
      split; [|apply emitted_once_NoDup].
      intros i (x & -> & Hx)%list_elem_of_fmap (y & Hxy & Hy)%list_elem_of_fmap.
      by apply (Hdisj x y).
    + intros x Hx. split; [|intros y Hy; by apply Hdisj].
      eexists. split; [done|]. apply elem_of_app. right.
      apply list_elem_of_fmap. by exists x.
  - rewrite scan_and_exit_unreadable in Hrun1 by done. injection Hrun1 as _ <-.
    rewrite scan_and_exit_unreadable in Hrun2 by done. injection Hrun2 as _ <-.
    simpl. split; [constructor|]. by intros x ?%elem_of_nil.
Qed.

End Scan.

(** ** filter_db *)

Section Filter.

Lemma elem_of_yield_binaries (u : string) (c : content)
    (bins : list (string * binary)) (t : item) :
  t ∈ yield_binaries u c bins
  ↔ ∃ package contents, (package, contents) ∈ bins ∧ t = tuple_of u c package contents.
Proof.
  induction bins as [|[p b] rest IH]; simpl.
  - split; [by intros ?%elem_of_nil|]. by intros (? & ? & ?%elem_of_nil & _).
  - rewrite elem_of_cons, IH. split.
    + intros [->|(p' & b' & Hin & ->)].
      * exists p, b. split; [by left|done].
      * exists p', b'. split; [by right|done].
    + intros (p' & b' & [Heq|Hin]%elem_of_cons & ->).
      * injection Heq as -> ->. by left.
      * right. by exists p', b'.
Qed.

Lemma elem_of_filter_db (db : feed) (rc : pyval) (t : item) :
  t ∈ filter_db db rc
  ↔ ∃ u c rel package contents,
      (u, c) ∈ db ∧ lookup_release c rc = Some rel
      ∧ (package, contents) ∈ binaries rel
      ∧ t = tuple_of u c package contents.
Proof.
  induction db as [|[u0 c0] rest IH]; simpl.
  - split; [by intros ?%elem_of_nil|]. by intros (? & ? & ? & ? & ? & ?%elem_of_nil & _).
  - destruct (lookup_release c0 rc) as [rel0|] eqn:Hrel.
    + rewrite elem_of_app, elem_of_yield_binaries, IH. split.
      * intros [(p & b & Hin & ->)|(u & c & rel & p & b & Hdb & Hl & Hin & ->)].
        -- exists u0, c0, rel0, p, b. repeat split; try done. by left.
        -- exists u, c, rel, p, b. repeat split; try done. by right.
      * intros (u & c & rel & p & b & [Heq|Hdb]%elem_of_cons & Hl & Hin & ->).
        -- injection Heq as -> ->. left. rewrite Hrel in Hl. injection Hl as ->.
           by exists p, b.
        -- right. by exists u, c, rel, p, b.
    + rewrite IH. split.
      * intros (u & c & rel & p & b & Hdb & Hl & Hin & ->).
        exists u, c, rel, p, b. repeat split; try done. by right.
      * intros (u & c & rel & p & b & [Heq|Hdb]%elem_of_cons & Hl & Hin & ->).
        -- injection Heq as -> ->. congruence.
        -- by exists u, c, rel, p, b.
Qed.

Lemma tuples_for_none (u package : string) (l : list item) :
  (∀ t, t ∈ l → unt t = u → name t ≠ package) → tuples_for u package l = [].
Proof.
  induction l as [|t l IH]; intros Hl; [done|].
  unfold tuples_for in *. rewrite filter_cons. case_decide as Ht.
  - destruct Ht as [Hu Hn]. exfalso. by apply (Hl t); [left|..].
  - apply IH. intros t' Ht'. apply Hl. by right.
Qed.

Lemma tuples_for_app (u package : string) (l k : list item) :
  tuples_for u package (l ++ k) = tuples_for u package l ++ tuples_for u package k.
Proof. apply filter_app. Qed.

Lemma tuples_for_yield (u : string) (c : content) (bins : list (string * binary))
    (package : string) (contents : binary) :
  NoDup (map fst bins) →
  (package, contents) ∈ bins →
  tuples_for u package (yield_binaries u c bins) = [tuple_of u c package contents].
Proof.
  induction bins as [|[p b] rest IH]; simpl; intros Hnd Hin.
  - by apply elem_of_nil in Hin.
  - apply NoDup_cons in Hnd as [Hp Hnd].
    unfold tuples_for in *. rewrite filter_cons. simpl.
    apply elem_of_cons in Hin as [Heq|Hin].
    + injection Heq as <- <-. rewrite decide_True by done. f_equal.
      apply (tuples_for_none u package). intros t (p' & b' & Hin' & ->)%elem_of_yield_binaries _.
      simpl. intros ->. apply Hp. apply list_elem_of_fmap. by exists (package, b').
    + rewrite decide_False; [by apply IH|].
      intros [_ ->]. apply Hp. apply list_elem_of_fmap. by exists (package, contents).
Qed.

(** C4: for a feed and the binaries of its releases with one entry per
    key, as dictionaries have, and a release codename: an advisory
    whose [releases] lacks the codename contributes no tuple; a
    package of an advisory whose [releases] has the codename
    contributes exactly one tuple, which carries the advisory id, the
    package name, the fixed version, the CVE list and the summary
    taken from [isummary] if present, else from [summary] if present,
    else "No summary"; and the sequence holds no other tuple. *)
Theorem filter_db_correct (db : feed) (codename : string) :
  NoDup (map fst db) →
  (∀ u c rel, (u, c) ∈ db → c_releases c !! codename = Some rel →
              NoDup (map fst (binaries rel))) →
  (∀ u c, (u, c) ∈ db → c_releases c !! codename = None →
          ∀ t, t ∈ filter_db db (PStr codename) → unt t ≠ u)
  ∧ (∀ u c rel package contents,
        (u, c) ∈ db → c_releases c !! codename = Some rel →
        (package, contents) ∈ binaries rel →
        tuples_for u package (filter_db db (PStr codename))
        = [mkItem u package (b_version contents)
                  match c_isummary c, c_summary c with
                  | Some extended, _ => extended
                  | None, Some short => short
                  | None, None => "No summary"
                  end
                  (c_cves c)])
  ∧ (∀ t, t ∈ filter_db db (PStr codename) →
          ∃ u c rel package contents,
            (u, c) ∈ db ∧ c_releases c !! codename = Some rel
            ∧ (package, contents) ∈ binaries rel
            ∧ unt t = u ∧ name t = package).
Proof.
  intros Hdb Hbins. split; [|split].
  - intros u c Hin Hnone t (u' & c' & rel & p & b & Hin' & Hl & _ & ->)%elem_of_filter_db.
    simpl in *. intros ->.
    assert (c' = c) as ->; [|congruence].
    clear -Hdb Hin Hin'. induction db as [|[u0 c0] rest IH]; [by apply elem_of_nil in Hin|].
    apply NoDup_cons in Hdb as [Hu0 Hnd].
    apply elem_of_cons in Hin as [Heq|Hin]; apply elem_of_cons in Hin' as [Heq'|Hin'].
    + congruence.
    + injection Heq as -> ->. exfalso. apply Hu0, list_elem_of_fmap. by exists (u0, c').
    + injection Heq' as -> ->. exfalso. apply Hu0, list_elem_of_fmap. by exists (u0, c).
    + by apply IH.
  - intros u c rel package contents Hin Hrel Hpkg.
    transitivity [tuple_of u c package contents];
      [|unfold tuple_of, resolve_summary; by destruct (c_isummary c), (c_summary c)].
    induction db as [|[u0 c0] rest IH]; [by apply elem_of_nil in Hin|].
    apply NoDup_cons in Hdb as [Hu0 Hnd]. simpl.
    assert (∀ t, t ∈ filter_db rest (PStr codename) → unt t ≠ u0) as Hrest.
    { intros t (u' & c' & ? & p & b & Hin' & _ & _ & ->)%elem_of_filter_db. simpl.
      intros ->. apply Hu0, list_elem_of_fmap. by exists (u0, c'). }
    apply elem_of_cons in Hin as [Heq|Hin].
    + injection Heq as <- <-. rewrite Hrel, tuples_for_app.
      rewrite (tuples_for_yield u c _ package contents); [|apply (Hbins u c); [by left|done]|done].
      rewrite (tuples_for_none u package (filter_db rest _)); [done|].
      intros t Ht Hu. by apply Hrest in Ht.
    + assert (u ≠ u0) as Hne.
      { intros ->. apply Hu0, list_elem_of_fmap. by exists (u0, c). }
      assert (tuples_for u package (filter_db rest (PStr codename))
              = [tuple_of u c package contents]) as Hih.
      { apply IH; [done| |done]. intros u' c' rel' Hin' Hl. apply (Hbins u' c'); [by right|done]. }
      destruct (c_releases c0 !! codename) as [rel0|]; [|done].
      rewrite tuples_for_app, Hih.
      rewrite (tuples_for_none u package (yield_binaries _ _ _)); [done|].
      intros t (p & b & _ & ->)%elem_of_yield_binaries. simpl. congruence.
  - intros t (u & c & rel & p & b & Hin & Hl & Hpkg & ->)%elem_of_filter_db.
    by exists u, c, rel, p, b.
Qed.

End Filter.

(** ** What a run prints and how it exits *)

Lemma quiet_ret {A} (a : A) : quiet (mret a).
Proof. intros s r s' [= <- <-]. split; [done|]. by intros n. Qed.

Lemma quiet_raise {A} (e : exn) : quiet (raise e : M A).
Proof. intros s r s' [= <- <-]. split; [done|]. by intros n. Qed.

Lemma quiet_exit0 {A} : quiet (sys_exit 0 : M A).
Proof. intros s r s' [= <- <-]. split; [done|]. by intros n [= <-]. Qed.

Lemma quiet_bind {A B} (m : M A) (k : A → M B) :
  quiet m → (∀ a, quiet (k a)) → quiet (m ≫= k).
Proof.
  intros Hm Hk s r s'. unfold mbind, M_bind, bind.
  destruct (m s) as [[a|e|n] s1] eqn:Hms; specialize (Hm _ _ _ Hms) as [Hout Hex].
  - intros Hks. specialize (Hk a _ _ _ Hks) as [Hout' Hex']. split; [congruence|done].
  - intros [= <- <-]. split; [done|]. by intros n.
  - intros [= <- <-]. split; [done|]. intros n' [= <-]. by apply Hex.
Qed.

Lemma quiet_try_file_not_found {A} (m h : M A) :
  quiet m → quiet h → quiet (try_file_not_found m h).
Proof.
  intros Hm Hh s r s'. unfold try_file_not_found.
  destruct (m s) as [[a|e|n] s1] eqn:Hms; specialize (Hm _ _ _ Hms) as [Hout Hex].
  - intros [= <- <-]. split; [done|]. by intros n.
  - destruct e; try (intros [= <- <-]; split; [done|]; by intros n).
    intros Hhs. specialize (Hh _ _ _ Hhs) as [Hout' Hex']. split; [congruence|done].
  - intros [= <- <-]. split; [done|]. intros n' [= <-]. by apply Hex.
Qed.

Lemma quiet_try_exception {A} (m h : M A) :
  quiet m → quiet h → quiet (try_exception m h).
Proof.
  intros Hm Hh s r s'. unfold try_exception.
  destruct (m s) as [[a|e|n] s1] eqn:Hms; specialize (Hm _ _ _ Hms) as [Hout Hex].
  - intros [= <- <-]. split; [done|]. by intros n.
  - intros Hhs. specialize (Hh _ _ _ Hhs) as [Hout' Hex']. split; [congruence|done].
  - intros [= <- <-]. split; [done|]. intros n' [= <-]. by apply Hex.
Qed.

Lemma quiet_print_line (text : string) : quiet (print (Line text)).
Proof.
  intros s r s' [= <- <-]. simpl. split; [|by intros n].
  rewrite reports_app. simpl. apply app_nil_r.
Qed.

Lemma quiet_print_help (d : string) (c : pyval) : quiet (print (Help d c)).
Proof.
  intros s r s' [= <- <-]. simpl. split; [|by intros n].
  rewrite reports_app. simpl. apply app_nil_r.
Qed.

Lemma quiet_open_read (path : string) : quiet (open_read path).
Proof.
  intros s r s'. unfold open_read.
  destruct (files (world s) !! path); intros [= <- <-]; (split; [done|]); by intros n.
Qed.

Lemma quiet_write_file (path : string) (f : file) : quiet (write_file path f).
Proof. intros s r s' [= <- <-]. split; [done|]. by intros n. Qed.

Lemma quiet_http_request (srv : Server) (q : request) : quiet (http_request srv q).
Proof.
  intros s r s'. unfold http_request.
  destruct (answer srv q); intros [= <- <-]; (split; [done|]); by intros n.
Qed.

Lemma quiet_get_codename : quiet get_codename.
Proof.
  intros s r s'. unfold get_codename.
  destruct (lsb_release (world s)); intros [= <- <-]; (split; [done|]); by intros n.
Qed.

Lemma quiet_ensure_directory (cfg : Config) : quiet (ensure_directory cfg).
Proof.
  intros s r s'. unfold ensure_directory.
  repeat case_bool_decide; intros [= <- <-]; (split; [done|]); by intros n.
Qed.

Create HintDb quiet.

#[local] Hint Resolve quiet_ret quiet_raise quiet_exit0 quiet_print_line
  quiet_print_help quiet_open_read quiet_write_file quiet_http_request
  quiet_get_codename quiet_ensure_directory : quiet.

(** Follow the structure of a computation: binds, handlers, branches. *)
Ltac quiet_step :=
  match goal with
  | |- quiet (mbind _ _) => apply quiet_bind; [|intros ?]
  | |- quiet (try_file_not_found _ _) => apply quiet_try_file_not_found
  | |- quiet (try_exception _ _) => apply quiet_try_exception
  | |- quiet (if ?b then _ else _) => destruct b
  | |- quiet (match ?x with _ => _ end) => destruct x
  | |- quiet _ => solve [auto with quiet]
  end.

Ltac quiet := repeat quiet_step.

Lemma quiet_database_file (cfg : Config) (srv : Server) : quiet (database_file cfg srv).
Proof. unfold database_file, load_headers, read_body. quiet. Qed.

Section Main.

Variable unpickle_db : bytes → option feed.
Variable cache : string → option (option string).
Variable version_compare : string → string → Z.
Variable timetuple : Type.
Variable parsedate : string → option timetuple.
Variable format_age : timetuple → option string.
Variable srv : Server.

Lemma quiet_show_age (cfg : Config) : quiet (show_age timetuple parsedate format_age cfg).
Proof. unfold show_age, load_headers. quiet. Qed.

Lemma quiet_show_help (cfg : Config) : quiet (show_help cfg).
Proof. unfold show_help. quiet. Qed.

Lemma quiet_process_opts (args : list string) (opts : list (string * string))
    (cfg : Config) (codename : option pyval) :
  quiet (process_opts timetuple parsedate format_age args opts cfg codename).
Proof.
  revert cfg codename. induction opts as [|[o a] rest IH]; intros cfg codename; simpl.
  - quiet.
  - pose proof (quiet_show_age cfg). pose proof (quiet_show_help cfg).
    repeat (first [apply IH | quiet_step | assumption]).
Qed.

Lemma quiet_pickle_load_db (f : file) : quiet (pickle_load_db unpickle_db f).
Proof. unfold pickle_load_db. quiet. Qed.

Lemma exits_right_quiet {A} (m : M A) : quiet m → exits_right m.
Proof.
  intros Hm s r s' Hms. specialize (Hm _ _ _ Hms) as [Hout Hex].
  destruct r as [a|e|n]; [done|done|]. left. split; [by apply Hex|done].
Qed.

Lemma exits_right_bind {A B} (m : M A) (k : A → M B) :
  quiet m → (∀ a, exits_right (k a)) → exits_right (m ≫= k).
Proof.
  intros Hm Hk s r s'. unfold mbind, M_bind, bind.
  destruct (m s) as [[a|e|n] s1] eqn:Hms; specialize (Hm _ _ _ Hms) as [Hout Hex].
  - intros Hks. specialize (Hk a _ _ _ Hks). rewrite <- Hout. done.
  - by intros [= <- <-].
  - intros [= <- <-]. left. split; [by apply Hex|done].
Qed.

Lemma exits_right_scan_and_exit (cfg : Config) (db : feed) (codename : pyval) :
  exits_right (scan_and_exit cache version_compare cfg db codename).
Proof.
  intros s r s' Hrun.
  destruct (stored_ids cfg s) as [ids|] eqn:Hstored.
  - destruct (scan_and_exit_spec cache version_compare cfg db codename s ids Hstored)
      as (s1 & Heq & Hout & _).
    rewrite Hrun in Heq. injection Heq as -> <-.
    rewrite Hout, reports_app, reports_Report.
    case_bool_decide as Hrs.
    + rewrite Hrs. apply app_nil_r.
    + right. split; [done|]. eauto.
  - rewrite scan_and_exit_unreadable in Hrun by done. by injection Hrun as <- <-.
Qed.

Lemma exits_right_main (opts : list (string * string)) (args : list string) :
  exits_right (main unpickle_db cache version_compare timetuple parsedate
                    format_age srv (inr (opts, args))).
Proof.
  unfold main.
  apply exits_right_bind; [apply quiet_process_opts|]. intros [cfg bound].
  destruct (ALERT_ONCE cfg && negb (PERSISTENT_STORAGE cfg));
    [apply exits_right_quiet, quiet_raise|].
  apply exits_right_bind; [destruct bound; auto with quiet|]. intros codename.
  apply exits_right_bind; [apply quiet_ensure_directory|]. intros _.
  apply exits_right_bind; [apply quiet_database_file|]. intros db_file.
  apply exits_right_bind; [apply quiet_pickle_load_db|]. intros db.
  apply exits_right_scan_and_exit.
Qed.

(** C3, as the code has it: the process exits with status 1 exactly
    when the run printed at least one report or was ended by an
    uncaught exception; a run that printed no report and was not
    ended by an exception exits with status 0, also when vulnerable
    tuples were all suppressed by the registry, the only other status
    being the 2 of an argument error. *)
Theorem exit_status_of_a_run
    (getopt_result : string + list (string * string) * list string)
    (w : World) (r : res unit) (s' : State) :
  main unpickle_db cache version_compare timetuple parsedate format_age srv
       getopt_result (fresh w) = (r, s') →
  (exit_status r = 1 ↔ reports (stdout s') ≠ [] ∨ ∃ e, r = Raise e)
  ∧ (reports (stdout s') = [] → (∀ e, r ≠ Raise e) →
     exit_status r = 0 ∨ (exit_status r = 2 ∧ ∃ err, getopt_result = inl err)).
Proof.
  intros Hrun. destruct getopt_result as [err|[opts args]].
  - injection Hrun as <- <-. simpl. split.
    + split; [done|]. by intros [?|[e ?]].
    + intros _ _. right. eauto.
  - pose proof (exits_right_main opts args _ _ _ Hrun) as Hex. simpl in Hex.
    destruct r as [[]|e|m]; simpl.
    + rewrite Hex. split; [|by left]. split; [done|]. by intros [?|[e ?]].
    + split; [|intros _ Hok; by destruct (Hok e)]. split; [eauto|done].
    + destruct Hex as [[-> ->]|(-> & new & Hnew & ->)]; simpl.
      * split; [|by left]. split; [done|]. by intros [?|[e ?]].
      * split; [|by intros]. split; [by left|done].
Qed.

End Main.

(** ** The conditional fetch *)

Lemma needs_update_etag (headers old_headers : gmap string string) (etag old_etag : string) :
  headers !! "ETag" = Some etag →
  old_headers !! "ETag" = Some old_etag →
  needs_update headers old_headers = negb (String.eqb etag old_etag).
Proof.
  intros He Ho. unfold needs_update. rewrite He, Ho.
  by destruct (String.eqb etag old_etag).
Qed.

Lemma needs_update_last_modified (headers old_headers : gmap string string)
    (modified old_modified : string) :
  headers !! "ETag" = None ∨ old_headers !! "ETag" = None →
  headers !! "Last-Modified" = Some modified →
  old_headers !! "Last-Modified" = Some old_modified →
  needs_update headers old_headers = negb (String.ltb old_modified modified).
Proof.
  intros Hetag Hm Ho. unfold needs_update. rewrite Hm, Ho.
  destruct Hetag as [-> | ->]; [done|].
  by destruct (headers !! "ETag").
Qed.

Lemma ltb_irrefl (v : string) : String.ltb v v = false.
Proof.
  unfold String.ltb. pose proof (String.compare_antisym v v) as Hanti.
  destruct (String.compare v v); simpl in Hanti; congruence.
Qed.

(** With no [ETag] on one side and the same [Last-Modified] on both,
    [update] stays [True]. *)
Lemma needs_update_unchanged (headers old_headers : gmap string string) (modified : string) :
  headers !! "ETag" = None ∨ old_headers !! "ETag" = None →
  headers !! "Last-Modified" = Some modified →
  old_headers !! "Last-Modified" = Some modified →
  needs_update headers old_headers = true.
Proof.
  intros Hetag Hm Ho.
  rewrite (needs_update_last_modified _ _ modified modified) by done.
  by rewrite ltb_irrefl.
Qed.

(** ** The claims on concrete runs *)

Lemma filter_db_not_str (db : feed) (rc : pyval) :
  (∀ s, rc ≠ PStr s) → filter_db db rc = [].
Proof.
  intros Hrc. induction db as [|[u c] rest IH]; simpl; [done|].
  destruct rc; [by destruct (Hrc s)|done|done].
Qed.

Lemma show_age_without_last_modified {timetuple : Type}
    (parsedate : string → option timetuple) (format_age : timetuple → option string)
    (cfg : Config) (s : State) (h : gmap string string) :
  files (world s) !! metadata_path cfg = Some (FHeaders h) →
  h !! "Last-Modified" = None →
  show_age timetuple parsedate format_age cfg s = (Ret tt, s).
Proof.
  intros Hf Hh. unfold show_age, try_exception, mbind, M_bind, bind, open_read.
  rewrite Hf. simpl. by rewrite Hh.
Qed.

Import Scenario.

(** C1, on the code: the stored headers and the HEAD response carry no
    [ETag] and the same [Last-Modified], and the body of the last run
    is on disk; [database_file] sends the GET all the same and returns
    the downloaded body.  And when the stored [Last-Modified] is the
    older one, it sends no GET and returns the body on disk. *)
Theorem unchanged_last_modified_is_refetched :
  let stale := [Byte.x80; Byte.x02] in
  let same := disk "bionic" [(metadata, FHeaders {["Last-Modified" := modified]});
                             (body_file, FBody stale)] in
  let older := disk "bionic"
                 [(metadata, FHeaders {["Last-Modified" := "Mon, 15 Jan 2018 10:00:00 GMT"]});
                  (body_file, FBody stale)] in
  ((database_file CONFIG srv (fresh same)).1 = Ret (FBody payload)
   ∧ requests (database_file CONFIG srv (fresh same)).2 = [HEAD; GET])
  ∧ ((database_file CONFIG srv (fresh older)).1 = Ret (FBody stale)
     ∧ requests (database_file CONFIG srv (fresh older)).2 = [HEAD]).
Proof. vm_compute. repeat split. Qed.

(** C7, on the code: the metadata file holds headers without
    [Last-Modified]; [-A] prints nothing at all and exits with status
    0, leaving the files as they were. *)
Theorem age_without_last_modified_prints_nothing :
  let w := disk "bionic" [(metadata, FHeaders {["ETag" := "5a5dd0f1"]})] in
  run w [("-A", "")] [] = (SysExit 0, fresh w).
Proof. vm_compute. reflexivity. Qed.

(** C9, on the code: on a xenial host, [-c bionic] binds [codename] to
    the list of remaining arguments, not to "bionic"; the filter then
    selects no advisory and the run reports nothing, where a scan for
    bionic reports USN-42-1. *)
Theorem codename_option_binds_args :
  let w := disk "xenial" [] in
  (process_opts unit parsedate format_age [] [("-c", "bionic")] CONFIG None (fresh w)).1
  = Ret (CONFIG, Some (PList []))
  ∧ filter_db db (PList []) = []
  ∧ (run w [("-c", "bionic")] []).1 = Ret tt
  ∧ reports (stdout (run w [("-c", "bionic")] []).2) = []
  ∧ map reported_id
        (reports (stdout (scan_and_exit cache VersionComparator.version_compare
                            CONFIG db (PStr "bionic") (fresh w)).2))
    = ["USN-42-1"].
Proof. vm_compute. repeat split. Qed.

(** C5, as the comparator has it: equal versions compare equal, 1.0 is
    less than 1.1, 1:0.9 is greater than 2.0 because its epoch 1 is
    above the default epoch 0, and 1.0~rc1 is less than 1.0. *)
Theorem version_ordering_examples :
  VersionComparator.compare "1.0" "1.0" = Eq
  ∧ VersionComparator.compare "1.0" "1.1" = Lt
  ∧ VersionComparator.compare "1:0.9" "2.0" = Gt
  ∧ VersionComparator.compare "1.0~rc1" "1.0" = Lt.
Proof. vm_compute. repeat split. Qed.

(** C5 as stated fails: 1:0.9 is not less than 2.0. *)
Lemma epoch_example_is_not_less :
  VersionComparator.epoch (VersionComparator.parse "1:0.9") = 1
  ∧ VersionComparator.epoch (VersionComparator.parse "2.0") = 0
  ∧ VersionComparator.compare "1:0.9" "2.0" ≠ Lt.
Proof. vm_compute. repeat split; discriminate. Qed.

(** C8 as stated fails: with alert-once off, an id that is in the
    registry is appended again when its package is reported. *)
Lemma show_all_registers_again :
  let cfg := mkConfig true directory false "" "" true in
  let r := mkRegistry alerts ["USN-42-1"] in
  let out := scan cache VersionComparator.version_compare cfg
                  (filter_db db (PStr "bionic")) (r, false) (fresh (disk "bionic" [])) in
  is_registered "USN-42-1" r = true
  ∧ (∃ r' found, out.1 = Ret (r', found) ∧ registry r' = ["USN-42-1"; "USN-42-1"])
  ∧ map reported_id (reports (stdout out.2)) = ["USN-42-1"].
Proof.
  vm_compute. split; [reflexivity|]. split; [|reflexivity].
  eexists _, _. split; reflexivity.
Qed.

(** ** The theorems at the end-to-end scenario *)

Lemma alert_once_idempotent_witness :
  ALERT_ONCE CONFIG = true
  ∧ first_run.1 = SysExit 1
  ∧ second_run.1 = Ret tt
  ∧ map reported_id (reports (stdout first_run.2)) = ["USN-42-1"]
  ∧ NoDup (map reported_id (reports (stdout first_run.2) ++ reports (stdout second_run.2))).
Proof.
  split; [reflexivity|]. split; [vm_compute; reflexivity|].
  split; [vm_compute; reflexivity|]. split; [vm_compute; reflexivity|].
  apply (alert_once_idempotent cache VersionComparator.version_compare CONFIG db bionic
           (disk "bionic" []) first_run.1 second_run.1 first_run.2 second_run.2).
  - reflexivity.
  - apply surjective_pairing.
  - apply surjective_pairing.
Defined.

Lemma exit_status_of_a_run_witness :
  vulnerable cache VersionComparator.version_compare
             (mkItem "USN-42-1" "curl" "7.58.0-2ubuntu3.8" "No summary" ["CVE-2018-1000120"])
  = Some "7.58.0-2ubuntu3.6"
  ∧ reports (stdout suppressed_run.2) = []
  ∧ (∀ e, suppressed_run.1 ≠ Raise e)
  ∧ (exit_status suppressed_run.1 = 0
     ∨ (exit_status suppressed_run.1 = 2
        ∧ ∃ err, (inr ([], []) : string + list (string * string) * list string) = inl err)).
Proof.
  assert (suppressed_run.1 = Ret tt) as Hret by (vm_compute; reflexivity).
  assert (∀ e, suppressed_run.1 ≠ Raise e) as Hok by (intros e; rewrite Hret; discriminate).
  assert (reports (stdout suppressed_run.2) = []) as Hnone by (vm_compute; reflexivity).
  split; [vm_compute; reflexivity|]. split; [exact Hnone|]. split; [exact Hok|].
  exact (proj2 (exit_status_of_a_run unpickle_db cache VersionComparator.version_compare
                  unit parsedate format_age srv (inr ([], []))
                  (disk "bionic" [(alerts, FIds ["USN-42-1"])])
                  suppressed_run.1 suppressed_run.2 (surjective_pairing _)) Hnone Hok).
Defined.

(** C3 as stated fails: when the HEAD request is answered with 503 the
    run is ended by the exception of line 111, with status 1 and
    without a report. *)
Lemma aborted_run_exits_1_without_alert :
  (∃ e, down_run.1 = Raise e)
  ∧ exit_status down_run.1 = 1
  ∧ reports (stdout down_run.2) = [].
Proof. vm_compute. split; [eauto|]. split; reflexivity. Qed.

Lemma filter_db_correct_witness :
  NoDup (map fst db)
  ∧ tuples_for "USN-42-1" "curl" (filter_db db bionic)
    = [mkItem "USN-42-1" "curl" "7.58.0-2ubuntu3.8" "No summary" ["CVE-2018-1000120"]].
Proof.
  assert (NoDup (map fst db)) as Hdb by (apply NoDup_singleton).
  split; [exact Hdb|].
  assert (∀ u c rel, (u, c) ∈ db → c_releases c !! "bionic" = Some rel →
                     NoDup (map fst (binaries rel))) as Hbins.
  { intros u c rel Hin%list_elem_of_singleton Hrel. injection Hin as -> ->.
    vm_compute in Hrel. injection Hrel as <-. apply NoDup_singleton. }
  apply (proj1 (proj2 (filter_db_correct db "bionic" Hdb Hbins))
           "USN-42-1" usn_42
           (mkRelease [("curl", mkBinary "7.58.0-2ubuntu3.8")]) "curl"
           (mkBinary "7.58.0-2ubuntu3.8")).
  - by apply list_elem_of_singleton.
  - vm_compute. reflexivity.
  - by apply list_elem_of_singleton.
Defined.

Lemma registry_round_trip_witness :
  let r := mkRegistry alerts [] in
  let s := fresh (disk "bionic" []) in
  files (world s) !! alerts = None
  ∧ ("USN-2" ∉ registry (register "USN-1" r))
  ∧ (∃ r2 s2,
        AlertRegistry_init alerts (save (register "USN-1" r) s).2 = (Ret r2, s2)
        ∧ is_registered "USN-1" r2 = true
        ∧ is_registered "USN-2" r2 = false)
  ∧ (∃ r0 s0,
        AlertRegistry_init alerts s = (Ret r0, s0)
        ∧ registry r0 = []
        ∧ files (world s0) !! alerts = Some (FIds [])).
Proof.
  intros r s.
  assert (files (world s) !! alerts = None) as Hmissing by (vm_compute; reflexivity).
  assert ("USN-2" ∉ registry (register "USN-1" r)) as Hother.
  { simpl. intros Hin%list_elem_of_singleton. discriminate. }
  split; [exact Hmissing|]. split; [exact Hother|].
  destruct (registry_round_trip "USN-1" "USN-2" alerts r s)
    as [(r2 & s2 & Hload & Hone & Htwo) Hnew].
  split.
  - exists r2, s2. split; [exact Hload|]. split; [exact Hone|]. exact (Htwo Hother).
  - exact (Hnew Hmissing).
Defined.

Lemma show_all_reports_and_registers_each_witness :
  ALERT_ONCE show_all = false
  ∧ (scan cache VersionComparator.version_compare show_all (filter_db db bionic)
          (mkRegistry alerts [], false) (fresh (disk "bionic" []))).1
    = Ret (mkRegistry alerts ["USN-42-1"], true).
Proof.
  split; [reflexivity|].
  rewrite (show_all_reports_and_registers_each cache VersionComparator.version_compare
             show_all (filter_db db bionic) (mkRegistry alerts []) false
             (fresh (disk "bionic" [])) eq_refl).
  vm_compute. reflexivity.
Defined.

Lemma alert_once_one_report_per_id_witness :
  ALERT_ONCE CONFIG = true
  ∧ length (filter_db [("USN-7-1", usn_7)] bionic) = 2%nat
  ∧ ∃ r' found' rs,
      scan both_installed VersionComparator.version_compare CONFIG
           (filter_db [("USN-7-1", usn_7)] bionic)
           (mkRegistry alerts [], false) (fresh (disk "bionic" []))
      = (Ret (r', found'),
         mkState (disk "bionic" []) (map Report rs) [])
      ∧ length rs = 1%nat
      ∧ NoDup (map reported_id rs).
Proof.
  split; [reflexivity|]. split; [vm_compute; reflexivity|].
  destruct (alert_once_one_report_per_id both_installed VersionComparator.version_compare
              CONFIG (filter_db [("USN-7-1", usn_7)] bionic)
              (mkRegistry alerts []) false (fresh (disk "bionic" [])) eq_refl)
    as (r' & found' & rs & Hscan & Hnodup & _).
  exists r', found', rs. split; [exact Hscan|]. split; [|exact Hnodup].
  vm_compute in Hscan. injection Hscan as _ _ Hout.
  destruct rs as [|x [|y rs]]; [discriminate|reflexivity|discriminate].
Defined.

(** * Further properties *)

Lemma append_inj_l (d a b : string) : (d ++ a)%string = (d ++ b)%string → a = b.
Proof. induction d as [|c d IH]; simpl; [done|]. intros [= H]. by apply IH. Qed.

Lemma path_join_inj (d f g : string) : path_join d f = path_join d g → f = g.
Proof.
  unfold path_join. destruct (String.eqb d ""); [done|].
  destruct (ends_with_slash d); intros H%append_inj_l; [done|].
  by injection H.
Qed.

Lemma metadata_path_ne_db_path (cfg : Config) : metadata_path cfg ≠ db_path cfg.
Proof. intros H%path_join_inj. discriminate. Qed.

Lemma alerts_path_ne_db_path (cfg : Config) : alerts_path cfg ≠ db_path cfg.
Proof. intros H%path_join_inj. discriminate. Qed.

Lemma alerts_path_ne_metadata_path (cfg : Config) : alerts_path cfg ≠ metadata_path cfg.
Proof. intros H%path_join_inj. discriminate. Qed.

Lemma db_path_ne_metadata_path (cfg : Config) : db_path cfg ≠ metadata_path cfg.
Proof. intros H%path_join_inj. discriminate. Qed.

Lemma database_file_persistent (cfg : Config) (srv : Server) (s : State)
    (resp : response) (old : gmap string string) :
  PERSISTENT_STORAGE cfg = true →
  on_head srv = Some resp →
  status resp = 200 →
  stored_headers cfg s = Some old →
  let headers := restructure (getheaders resp) in
  let s1 := after_head cfg headers s in
  database_file cfg srv s
  = match (if needs_update headers old then None else files (world s) !! db_path cfg) with
    | Some f => (Ret f, s1)
    | None =>
      match on_get srv with
      | None => (Raise HTTPException, after_get s1)
      | Some g =>
        if status g =? 200 then
          if body_breaks srv then
            (Raise HTTPException, (write_file (db_path cfg) (FBody []) (after_get s1)).2)
          else
            (Ret (FBody (body g)),
             (write_file (db_path cfg) (FBody (body g))
                         (write_file (db_path cfg) (FBody []) (after_get s1)).2).2)
        else (Raise (PyException "Error retrieving pickle database"), after_get s1)
      end
    end.
Proof.
  intros Hp Hh Hst Hold. simpl.
  unfold database_file. rewrite Hp. simpl.
  unfold mbind, M_bind, bind, http_request. simpl. rewrite Hh, Hst. simpl.
  unfold stored_headers in Hold.
  unfold try_file_not_found, open_read, load_headers. simpl.
  assert (∀ w o r, files (world (mkState (mkWorld (<[metadata_path cfg := FHeaders (restructure (getheaders resp))]> (files (world s))) w o) r (requests s ++ [HEAD]))) !! db_path cfg = files (world s) !! db_path cfg) as Hdb.
  { intros. simpl. apply lookup_insert_ne, metadata_path_ne_db_path. }
  destruct (files (world s) !! metadata_path cfg) as [[| h |]|] eqn:Hm; try discriminate;
    injection Hold as <-; simpl;
    (destruct (needs_update _ _); simpl;
     [ unfold http_request; simpl; destruct (on_get srv) as [g|]; simpl; [|done];
       destruct (status g =? 200); simpl; [|done];
       unfold read_body; by destruct (body_breaks srv)
     | unfold try_exception, mbind, M_bind, bind, open_read; simpl;
       rewrite lookup_insert_ne by apply metadata_path_ne_db_path;
       destruct (files (world s) !! db_path cfg); simpl; [done|];
       unfold http_request; simpl; destruct (on_get srv) as [g|]; simpl; [|done];
       destruct (status g =? 200); simpl; [|done];
       unfold read_body; by destruct (body_breaks srv) ]).
Qed.

Lemma database_file_head_failure (cfg : Config) (srv : Server) (s : State) :
  PERSISTENT_STORAGE cfg = true →
  (∀ resp, on_head srv = Some resp → status resp ≠ 200) →
  ∃ e, database_file cfg srv s
       = (Raise e, mkState (world s) (stdout s) (requests s ++ [HEAD])).
Proof.
  intros Hp Hh. unfold database_file. rewrite Hp. simpl.
  unfold mbind, M_bind, bind, http_request. simpl.
  destruct (on_head srv) as [resp|] eqn:Hresp; [|by eexists].
  specialize (Hh resp eq_refl). apply Z.eqb_neq in Hh. rewrite Hh. simpl. by eexists.
Qed.

Lemma database_file_unreadable_metadata (cfg : Config) (srv : Server) (s : State)
    (resp : response) :
  PERSISTENT_STORAGE cfg = true →
  on_head srv = Some resp →
  status resp = 200 →
  stored_headers cfg s = None →
  database_file cfg srv s
  = (Raise UnpicklingError, mkState (world s) (stdout s) (requests s ++ [HEAD])).
Proof.
  intros Hp Hh Hst Hold. unfold database_file. rewrite Hp. simpl.
  unfold mbind, M_bind, bind, http_request. simpl. rewrite Hh, Hst. simpl.
  unfold stored_headers in Hold.
  unfold try_file_not_found, open_read, load_headers. simpl.
  by destruct (files (world s) !! metadata_path cfg) as [[| h |]|].
Qed.

(** X1: with persistent storage, when the HEAD request fails or is
    answered with another status than 200, [database_file] raises
    after that one request: no GET is sent and no file is written. *)
Theorem head_failure_aborts (cfg : Config) (srv : Server) (s s' : State) (r : res file) :
  PERSISTENT_STORAGE cfg = true →
  (∀ resp, on_head srv = Some resp → status resp ≠ 200) →
  database_file cfg srv s = (r, s') →
  (∃ e, r = Raise e) ∧ world s' = world s ∧ requests s' = requests s ++ [HEAD].
Proof.
  intros Hp Hh Hrun.
  destruct (database_file_head_failure cfg srv s Hp Hh) as [e He].
  rewrite Hrun in He. injection He as -> ->. eauto.
Qed.

Lemma head_headers_on_disk (cfg : Config) (srv : Server) (s s' : State)
    (r : res file) (resp : response) (old : gmap string string) :
  PERSISTENT_STORAGE cfg = true →
  on_head srv = Some resp →
  status resp = 200 →
  stored_headers cfg s = Some old →
  database_file cfg srv s = (r, s') →
  files (world s') !! metadata_path cfg = Some (FHeaders (restructure (getheaders resp))).
Proof.
  intros Hp Hh Hst Hold. rewrite (database_file_persistent cfg srv s resp old) by done.
  destruct (if needs_update _ _ then _ else _) as [f|].
  - intros [= _ <-]. simpl. apply lookup_insert_eq.
  - (destruct (on_get srv) as [g|]; [destruct (status g =? 200); [destruct (body_breaks srv)|]|]); intros [= _ <-]; simpl;
      rewrite ?lookup_insert_ne by apply db_path_ne_metadata_path;
      apply lookup_insert_eq.
Qed.

Lemma fetched_body_on_disk (cfg : Config) (srv : Server) (s s' : State) (f : file) :
  PERSISTENT_STORAGE cfg = true →
  database_file cfg srv s = (Ret f, s') →
  files (world s') !! db_path cfg = Some f.
Proof.
  intros Hp Hrun.
  destruct (on_head srv) as [resp|] eqn:Hh.
  2: { destruct (database_file_head_failure cfg srv s Hp) as [e He].
       { intros resp'. rewrite Hh. discriminate. }
       rewrite Hrun in He. discriminate. }
  destruct (decide (status resp = 200)) as [Hst|Hst].
  2: { destruct (database_file_head_failure cfg srv s Hp) as [e He].
       { intros resp' Hr. rewrite Hh in Hr. by injection Hr as <-. }
       rewrite Hrun in He. discriminate. }
  destruct (stored_headers cfg s) as [old|] eqn:Hold.
  2: { rewrite (database_file_unreadable_metadata cfg srv s resp) in Hrun by done.
       discriminate. }
  rewrite (database_file_persistent cfg srv s resp old) in Hrun by done.
  destruct (needs_update _ _) eqn:Hup; simpl in Hrun.
  - (destruct (on_get srv) as [g|]; [destruct (status g =? 200); [destruct (body_breaks srv)|]|]); try discriminate.
    injection Hrun as <- <-. simpl. apply lookup_insert_eq.
  - destruct (files (world s) !! db_path cfg) as [f0|] eqn:Hf.
    + injection Hrun as <- <-. simpl.
      rewrite lookup_insert_ne by apply metadata_path_ne_db_path. done.
    + (destruct (on_get srv) as [g|]; [destruct (status g =? 200); [destruct (body_breaks srv)|]|]); try discriminate.
      injection Hrun as <- <-. simpl. apply lookup_insert_eq.
Qed.

(** X2: with persistent storage, once the HEAD request is answered
    with 200 and the stored headers could be loaded, [db.metadata.pickle]
    holds the headers of that response, whatever happens next: also
    when the GET is skipped, fails or is answered with an error. *)
Theorem metadata_always_overwritten (cfg : Config) (srv : Server) (s s' : State)
    (r : res file) (resp : response) (old : gmap string string) :
  PERSISTENT_STORAGE cfg = true →
  on_head srv = Some resp →
  status resp = 200 →
  stored_headers cfg s = Some old →
  database_file cfg srv s = (r, s') →
  files (world s') !! metadata_path cfg = Some (FHeaders (restructure (getheaders resp))).
Proof. apply head_headers_on_disk. Qed.

(** X3: with persistent storage, the file [database_file] returns is
    what [db.pickle] holds when it returns, whether it was downloaded
    or found on disk. *)
Theorem returned_body_is_stored (cfg : Config) (srv : Server) (s s' : State) (f : file) :
  PERSISTENT_STORAGE cfg = true →
  database_file cfg srv s = (Ret f, s') →
  files (world s') !! db_path cfg = Some f.
Proof. apply fetched_body_on_disk. Qed.


(** X5: with persistent storage and a HEAD answered with 200, when
    there is no [db.pickle] the GET is sent whatever the validators
    say: a cache found fresh but without a body is updated anyway. *)
Theorem missing_body_forces_get (cfg : Config) (srv : Server) (s s' : State)
    (r : res file) (resp : response) (old : gmap string string) :
  PERSISTENT_STORAGE cfg = true →
  on_head srv = Some resp →
  status resp = 200 →
  stored_headers cfg s = Some old →
  files (world s) !! db_path cfg = None →
  database_file cfg srv s = (r, s') →
  requests s' = requests s ++ [HEAD; GET].
Proof.
  intros Hp Hh Hst Hold Hnone. rewrite (database_file_persistent cfg srv s resp old) by done.
  rewrite Hnone. destruct (needs_update _ _);
    (destruct (on_get srv) as [g|]; [destruct (status g =? 200); [destruct (body_breaks srv)|]|]); intros [= _ <-]; simpl;
    by rewrite <- app_assoc.
Qed.

(** X6: when the stored headers and the HEAD response both have an
    [ETag] and the two differ, the GET is sent; [Last-Modified] plays
    no part. *)
Theorem changed_etag_refetches (cfg : Config) (srv : Server) (s s' : State)
    (r : res file) (resp : response) (old : gmap string string) (etag old_etag : string) :
  PERSISTENT_STORAGE cfg = true →
  on_head srv = Some resp →
  status resp = 200 →
  stored_headers cfg s = Some old →
  restructure (getheaders resp) !! "ETag" = Some etag →
  old !! "ETag" = Some old_etag →
  etag ≠ old_etag →
  database_file cfg srv s = (r, s') →
  requests s' = requests s ++ [HEAD; GET].
Proof.
  intros Hp Hh Hst Hold He Ho Hne.
  rewrite (database_file_persistent cfg srv s resp old) by done.
  rewrite (needs_update_etag _ _ etag old_etag) by done.
  apply String.eqb_neq in Hne. rewrite Hne. simpl.
  (destruct (on_get srv) as [g|]; [destruct (status g =? 200); [destruct (body_breaks srv)|]|]); intros [= _ <-]; simpl;
    by rewrite <- app_assoc.
Qed.


(** X10: the filter works advisory by advisory and keeps the order
    of the feed: filtering two feeds one after the other is filtering
    each and joining the results. *)
Theorem filter_db_app (db1 db2 : feed) (rc : pyval) :
  filter_db (db1 ++ db2) rc = filter_db db1 rc ++ filter_db db2 rc.
Proof.
  induction db1 as [|[u c] rest IH]; simpl; [done|].
  destruct (lookup_release c rc); [|done]. by rewrite IH, app_assoc.
Qed.

(** X11: a release codename that is not a string, [None] from a
    host file without a codename line or the list bound by [-c],
    equals no key of [releases]: the filter yields nothing. *)
Theorem filter_db_without_string_codename (db : feed) (rc : pyval) :
  (∀ c, rc ≠ PStr c) → filter_db db rc = [].
Proof. apply filter_db_not_str. Qed.

Section ScanExtra.

Variable cache : string → option (option string).
Variable version_compare : string → string → Z.

Abbreviation vulnerable := (vulnerable cache version_compare).
Abbreviation emitted := (emitted cache version_compare).
Abbreviation vulnerable_reports := (vulnerable_reports cache version_compare).

Lemma emitted_covers (once : bool) (packages : list item) (reg : list string)
    (p : item) :
  p ∈ packages → vulnerable p ≠ None →
  unt p ∈ reg ++ map reported_id (emitted once packages reg).
Proof.
  revert reg. induction packages as [|q rest IH]; intros reg Hin Hv.
  - by apply elem_of_nil in Hin.
  - simpl. apply elem_of_cons in Hin as [->|Hin].
    + destruct (vulnerable q) as [i|]; [|done].
      destruct (once && bool_decide (unt q ∈ reg)) eqn:Hsup.
      * apply andb_true_iff in Hsup as [_ Hreg%bool_decide_eq_true].
        apply elem_of_app. by left.
      * simpl. apply elem_of_app. right. by left.
    + destruct (vulnerable q) as [i|].
      * destruct (once && bool_decide (unt q ∈ reg)); [by apply IH|].
        simpl. specialize (IH (reg ++ [unt q]) Hin Hv).
        rewrite <- app_assoc in IH. done.
      * by apply IH.
Qed.

Lemma emitted_none (packages : list item) (reg : list string) :
  (∀ p, p ∈ packages → vulnerable p ≠ None → unt p ∈ reg) →
  emitted true packages reg = [].
Proof.
  induction packages as [|q rest IH]; intros Hall; simpl; [done|].
  assert (emitted true rest reg = []) as Hrest.
  { apply IH. intros p Hp. apply Hall. by right. }
  destruct (vulnerable q) as [i|] eqn:Hq; [|done].
  rewrite bool_decide_eq_true_2; [done|].
  apply Hall; [by left|by rewrite Hq].
Qed.

Lemma emitted_sublist (once : bool) (packages : list item) (reg : list string) :
  emitted once packages reg `sublist_of` vulnerable_reports packages.
Proof.
  revert reg. induction packages as [|q rest IH]; intros reg; simpl; [done|].
  unfold vulnerable_reports. simpl.
  destruct (vulnerable q) as [i|]; simpl; [|apply IH].
  destruct (once && bool_decide (unt q ∈ reg)).
  - apply sublist_cons, IH.
  - apply sublist_skip, IH.
Qed.

(** X12: the scan loop prints reports and appends the id of each
    report to the registry, in the order of the reports; it keeps the
    ids the registry had, changes no file, sends no request, and the
    issues flag it returns is set exactly when it was set before or a
    report was printed. *)
Theorem scan_appends_reported_ids (cfg : Config) (packages : list item)
    (r r' : AlertRegistry) (found found' : bool) (s s' : State) :
  scan cache version_compare cfg packages (r, found) s = (Ret (r', found'), s') →
  ∃ rs,
    stdout s' = stdout s ++ map Report rs
    ∧ registry r' = registry r ++ map reported_id rs
    ∧ storage_file r' = storage_file r
    ∧ world s' = world s
    ∧ requests s' = requests s
    ∧ (found' = true ↔ found = true ∨ rs ≠ []).
Proof.
  rewrite scan_spec. intros [= <- <- <-]. eexists. repeat split; simpl; try done.
  - intros [->|Hrs%negb_true_iff%bool_decide_eq_false]%orb_true_iff; eauto.
  - intros [->|Hrs]; [done|]. apply orb_true_iff. right.
    by apply negb_true_iff, bool_decide_eq_false.
Qed.

(** X13: every report of the scan loop is for a package of the
    filtered sequence that the cache knows as installed, with the
    installed version that is printed, and that version compares
    below the fixed one; the reports come in the order of the
    sequence. *)
Theorem scan_reports_are_vulnerable (cfg : Config) (packages : list item)
    (r r' : AlertRegistry) (found found' : bool) (s s' : State) :
  scan cache version_compare cfg packages (r, found) s = (Ret (r', found'), s') →
  ∃ rs,
    stdout s' = stdout s ++ map Report rs
    ∧ rs `sublist_of` vulnerable_reports packages
    ∧ ∀ x, x ∈ rs →
        alert x ∈ packages
        ∧ cache (name (alert x)) = Some (Some (installed_version x))
        ∧ version_compare (installed_version x) (version (alert x)) < 0.
Proof.
  rewrite scan_spec. intros [= <- <- <-]. eexists. split; [done|].
  split; [apply emitted_sublist|].
  intros x [Hin Hv]%emitted_vulnerable. split; [done|].
  unfold vulnerable in Hv.
  destruct (cache (name (alert x))) as [[i|]|]; try discriminate.
  destruct (version_compare i (version (alert x)) <? 0) eqn:Hlt; [|discriminate].
  injection Hv as <-. split; [done|]. by apply Z.ltb_lt.
Qed.

(** X14: after the scan loop, with alert-once on or off, the id of
    every installed package older than its fix is registered. *)
Theorem scan_registers_every_vulnerable (cfg : Config) (packages : list item)
    (r r' : AlertRegistry) (found found' : bool) (s s' : State) (p : item) (installed : string) :
  scan cache version_compare cfg packages (r, found) s = (Ret (r', found'), s') →
  p ∈ packages →
  cache (name p) = Some (Some installed) →
  version_compare installed (version p) < 0 →
  is_registered (unt p) r' = true.
Proof.
  rewrite scan_spec. intros [= <- <- <-] Hin Hc Hlt.
  apply is_registered_true. simpl. apply emitted_covers; [done|].
  unfold vulnerable. rewrite Hc. apply Z.ltb_lt in Hlt. by rewrite Hlt.
Qed.

(** X15: under alert-once a registry without duplicates stays
    without duplicates through the scan loop. *)
Theorem alert_once_keeps_registry_duplicate_free (cfg : Config) (packages : list item)
    (r r' : AlertRegistry) (found found' : bool) (s s' : State) :
  ALERT_ONCE cfg = true →
  NoDup (registry r) →
  scan cache version_compare cfg packages (r, found) s = (Ret (r', found'), s') →
  NoDup (registry r').
Proof.
  intros Honce Hnd. rewrite scan_spec, Honce. intros [= <- <- <-]. simpl.
  apply NoDup_app. split; [done|]. split; [|apply emitted_once_NoDup].
  intros u Hu (x & -> & Hx)%list_elem_of_fmap.
  by apply emitted_once_fresh in Hx.
Qed.

(** X16: under alert-once, right after a run that ended without an
    exception, a second run on the same feed and inventory prints
    nothing, ends with status 0 and leaves every file as the first
    run left it. *)
Theorem second_run_reports_nothing (cfg : Config) (db : feed) (codename : pyval)
    (w : World) (r1 : res unit) (s1 : State) :
  ALERT_ONCE cfg = true →
  scan_and_exit cache version_compare cfg db codename (fresh w) = (r1, s1) →
  (∀ e, r1 ≠ Raise e) →
  scan_and_exit cache version_compare cfg db codename (fresh (world s1))
  = (Ret tt, fresh (world s1)).
Proof.
  intros Honce Hrun1 Hok.
  destruct (stored_ids cfg (fresh w)) as [ids|] eqn:Hstored.
  2: { rewrite scan_and_exit_unreadable in Hrun1 by done. injection Hrun1 as <- _.
       by destruct (Hok UnpicklingError). }
  destruct (scan_and_exit_spec cache version_compare cfg db codename _ ids Hstored)
    as (s1' & Heq1 & _ & _ & Hfile1).
  rewrite Hrun1 in Heq1. injection Heq1 as _ <-. rewrite Honce in Hfile1.
  set (rs1 := emitted true (filter_db db codename) ids) in *.
  assert (emitted true (filter_db db codename) (ids ++ map reported_id rs1) = []) as Hnone.
  { apply emitted_none. intros p Hp Hv. by apply emitted_covers. }
  unfold scan_and_exit.
  unfold mbind at 1, M_bind at 1, bind at 1.
  rewrite (init_existing _ (ids ++ map reported_id rs1)) by done.
  unfold mbind, M_bind, bind. rewrite scan_spec. simpl. rewrite Honce, Hnone. simpl.
  rewrite app_nil_r. unfold save, write_file, fresh. simpl. do 2 f_equal.
  destruct (world s1) as [fs ds lsb]. simpl in *. by rewrite insert_id.
Qed.

End ScanExtra.

Lemma inert_ret {A} (a : A) : inert (mret a).
Proof. by intros s r s' [= <- <-]. Qed.

Lemma inert_raise {A} (e : exn) : inert (raise e : M A).
Proof. by intros s r s' [= <- <-]. Qed.

Lemma inert_exit {A} (n : Z) : inert (sys_exit n : M A).
Proof. by intros s r s' [= <- <-]. Qed.



Lemma inert_print (o : out_item) : inert (print o).
Proof. by intros s r s' [= <- <-]. Qed.

Lemma inert_open_read (path : string) : inert (open_read path).
Proof.
  intros s r s'. unfold open_read.
  by destruct (files (world s) !! path); intros [= <- <-].
Qed.

Lemma inert_get_codename : inert get_codename.
Proof.
  intros s r s'. unfold get_codename.
  by destruct (lsb_release (world s)); intros [= <- <-].
Qed.

Create HintDb inert.

#[local] Hint Resolve inert_ret inert_raise inert_exit inert_print inert_open_read
  inert_get_codename : inert.


Section OptionsExtra.

Variable timetuple : Type.
Variable parsedate : string → option timetuple.
Variable format_age : timetuple → option string.




Lemma show_age_returns (cfg : Config) (s : State) :
  ∃ out,
    show_age timetuple parsedate format_age cfg s
    = (Ret tt, mkState (world s) (stdout s ++ out) (requests s))
    ∧ (out = [] ∨ ∃ text, out = [Line text])
    ∧ (files (world s) !! metadata_path cfg = None → out = [Line "0"])
    ∧ (∀ h v, files (world s) !! metadata_path cfg = Some (FHeaders h) →
              h !! "Last-Modified" = Some v → parsedate v = None →
              out = [Line "0"]).
Proof.
  unfold show_age, try_exception, mbind, M_bind, bind, open_read, load_headers.
  destruct (files (world s) !! metadata_path cfg) as [[ids|h|b]|] eqn:Hf; simpl.
  - exists [Line "0"]. repeat split; eauto; done.
  - destruct (h !! "Last-Modified") as [v|] eqn:Hv; simpl.
    + destruct (parsedate v) as [age|] eqn:Hp; simpl.
      * destruct (format_age age) as [text|]; simpl.
        -- exists [Line text]. repeat split; eauto; try done.
           intros h' v' [= <-]. rewrite Hv. intros [= <-]. by rewrite Hp.
        -- exists [Line "0"]. repeat split; eauto; done.
      * exists [Line "0"]. repeat split; eauto; done.
    + exists []. rewrite app_nil_r. destruct s. repeat split; eauto; try done.
      intros h' v' [= <-]. by rewrite Hv.
  - exists [Line "0"]. repeat split; eauto; done.
  - exists [Line "0"]. repeat split; eauto; done.
Qed.


Lemma process_opts_persistent (args : list string) (opts : list (string * string))
    (cfg cfg' : Config) (codename bound : option pyval) (s s' : State) :
  PERSISTENT_STORAGE cfg = true →
  process_opts timetuple parsedate format_age args opts cfg codename s
  = (Ret (cfg', bound), s') →
  PERSISTENT_STORAGE cfg' = true.
Proof.
  revert cfg codename. induction opts as [|[o a] rest IH]; intros cfg codename Hp; simpl.
  - by intros [= <- _ _].
  - destruct (in2 o "-h" "--help").
    { unfold mbind, M_bind, bind. by destruct (show_help cfg s) as [[[]|e|n] s1]. }
    destruct (in2 o "-d" "--directory="); [by apply IH|].
    destruct (in2 o "-a" "--all"); [by apply IH|].
    destruct (in2 o "-o" "--once"); [by apply IH|].
    destruct (in2 o "-c" "--codename="); [by apply IH|].
    destruct (in2 o "-A" "--age"); [|by apply IH].
    unfold mbind, M_bind, bind.
    by destruct (show_age timetuple parsedate format_age cfg s) as [[[]|e|n] s1].
Qed.

(** X17: [show_age] never raises and never exits: it returns after
    printing at most one line and changes no file; the line is "0"
    when there is no metadata file and when [Last-Modified] cannot be
    parsed. *)
Theorem show_age_swallows_errors (cfg : Config) (s : State) :
  ∃ out,
    show_age timetuple parsedate format_age cfg s
    = (Ret tt, mkState (world s) (stdout s ++ out) (requests s))
    ∧ (out = [] ∨ ∃ text, out = [Line text])
    ∧ (files (world s) !! metadata_path cfg = None → out = [Line "0"])
    ∧ (∀ h v, files (world s) !! metadata_path cfg = Some (FHeaders h) →
              h !! "Last-Modified" = Some v → parsedate v = None →
              out = [Line "0"]).
Proof. apply show_age_returns. Qed.

(** X18: the option loop never switches persistent storage off: a
    configuration that has it on, as [CONFIG] has, still has it on
    after any options, so the check of line 256 lets every run pass. *)
Theorem options_keep_persistent_storage (args : list string) (opts : list (string * string))
    (cfg cfg' : Config) (codename bound : option pyval) (s s' : State) :
  PERSISTENT_STORAGE cfg = true →
  process_opts timetuple parsedate format_age args opts cfg codename s
  = (Ret (cfg', bound), s') →
  PERSISTENT_STORAGE cfg' = true
  ∧ ALERT_ONCE cfg' && negb (PERSISTENT_STORAGE cfg') = false.
Proof.
  intros Hp Hrun.
  pose proof (process_opts_persistent args opts cfg cfg' codename bound s s' Hp Hrun) as Hp'.
  split; [done|]. by rewrite Hp', andb_false_r.
Qed.

End OptionsExtra.

Lemma restructure_snoc (l : list (string * string)) (k v : string) :
  restructure (l ++ [(k, v)]) = <[k := v]> (restructure l).
Proof. unfold restructure. by rewrite foldl_app. Qed.

(** X8: the header dictionary built from the response's header
    tuples maps a name to the value of its last tuple, is not affected
    at other names by a tuple, and has no entry for a name that no
    tuple carries. *)
Theorem restructure_last_wins (pre post : list (string * string)) (k v : string) :
  (k ∉ post.*1 → restructure (pre ++ (k, v) :: post) !! k = Some v)
  ∧ (∀ k', k' ≠ k →
       restructure (pre ++ (k, v) :: post) !! k' = restructure (pre ++ post) !! k')
  ∧ (k ∉ pre.*1 → restructure pre !! k = None).
Proof.
  split; [|split].
  - induction post as [|[k' v'] post IH] using rev_ind; intros Hk.
    + rewrite restructure_snoc. apply lookup_insert_eq.
    + rewrite fmap_app, not_elem_of_app in Hk. destruct Hk as [Hk Hk'].
      rewrite app_comm_cons, app_assoc, restructure_snoc.
      rewrite lookup_insert_ne; [by apply IH|].
      intros ->. apply Hk'. simpl. by left.
  - induction post as [|[k1 v1] post IH] using rev_ind; intros k' Hne.
    + rewrite app_nil_r, restructure_snoc. by apply lookup_insert_ne.
    + rewrite app_comm_cons, !app_assoc, !restructure_snoc.
      destruct (decide (k1 = k')) as [->|Hk1].
      * by rewrite !lookup_insert_eq.
      * rewrite !lookup_insert_ne by done. by apply IH.
  - induction pre as [|[k' v'] pre IH] using rev_ind; intros Hk; [done|].
    rewrite fmap_app, not_elem_of_app in Hk. destruct Hk as [Hk Hk'].
    rewrite restructure_snoc, lookup_insert_ne; [by apply IH|].
    intros ->. apply Hk'. simpl. by left.
Qed.









Section MainExtra.

Variable unpickle_db : bytes → option feed.
Variable cache : string → option (option string).
Variable version_compare : string → string → Z.
Variable timetuple : Type.
Variable parsedate : string → option timetuple.
Variable format_age : timetuple → option string.
Variable srv : Server.



End MainExtra.

(** ** The further properties at the scenario *)

Lemma head_failure_aborts_witness :
  let out := database_file CONFIG down (fresh (disk "bionic" [])) in
  PERSISTENT_STORAGE CONFIG = true
  ∧ (∃ e, out.1 = Raise e)
  ∧ world out.2 = disk "bionic" []
  ∧ requests out.2 = [HEAD].
Proof.
  intros out. split; [reflexivity|].
  apply (head_failure_aborts CONFIG down (fresh (disk "bionic" [])) out.2 out.1).
  - reflexivity.
  - intros resp [= <-]. discriminate.
  - apply surjective_pairing.
Defined.

Lemma metadata_always_overwritten_witness :
  let out := database_file CONFIG srv (fresh (disk "bionic" [])) in
  stored_headers CONFIG (fresh (disk "bionic" [])) = Some ∅
  ∧ files (world out.2) !! metadata
    = Some (FHeaders {["Last-Modified" := modified]}).
Proof.
  intros out. split; [reflexivity|].
  apply (metadata_always_overwritten CONFIG srv (fresh (disk "bionic" [])) out.2 out.1
           (mkResponse 200 [("Last-Modified", modified)] []) ∅).
  - reflexivity.
  - reflexivity.
  - reflexivity.
  - reflexivity.
  - apply surjective_pairing.
Defined.

Lemma returned_body_is_stored_witness :
  let out := database_file CONFIG srv (fresh (disk "bionic" [])) in
  out.1 = Ret (FBody payload)
  ∧ files (world out.2) !! body_file = Some (FBody payload).
Proof.
  intros out.
  assert (out.1 = Ret (FBody payload)) as Hret by (vm_compute; reflexivity).
  split; [exact Hret|].
  apply (returned_body_is_stored CONFIG srv (fresh (disk "bionic" [])) out.2 (FBody payload)).
  - reflexivity.
  - rewrite <- Hret. apply surjective_pairing.
Defined.


Lemma missing_body_forces_get_witness :
  let s := fresh (disk "bionic" [(metadata, FHeaders {["Last-Modified" := modified]})]) in
  files (world s) !! db_path CONFIG = None
  ∧ requests (database_file CONFIG srv s).2 = [HEAD; GET].
Proof.
  intros s. split; [vm_compute; reflexivity|].
  apply (missing_body_forces_get CONFIG srv s _ (database_file CONFIG srv s).1
           (mkResponse 200 [("Last-Modified", modified)] [])
           {["Last-Modified" := modified]}).
  - reflexivity.
  - reflexivity.
  - reflexivity.
  - vm_compute. reflexivity.
  - vm_compute. reflexivity.
  - apply surjective_pairing.
Defined.

Lemma changed_etag_refetches_witness :
  let s := fresh (disk "bionic" [(metadata, FHeaders {["ETag" := "v1"]});
                                 (body_file, FBody [])]) in
  "v2" ≠ "v1"
  ∧ requests (database_file CONFIG tagged s).2 = [HEAD; GET].
Proof.
  intros s. split; [discriminate|].
  apply (changed_etag_refetches CONFIG tagged s _ (database_file CONFIG tagged s).1
           (mkResponse 200 [("ETag", "v2"); ("Last-Modified", modified)] [])
           {["ETag" := "v1"]} "v2" "v1").
  - reflexivity.
  - reflexivity.
  - reflexivity.
  - vm_compute. reflexivity.
  - vm_compute. reflexivity.
  - vm_compute. reflexivity.
  - discriminate.
  - apply surjective_pairing.
Defined.


Lemma restructure_last_wins_witness :
  ("ETag" ∉ [("Date", "Tue")].*1)
  ∧ restructure ([("ETag", "v1")] ++ ("ETag", "v2") :: [("Date", "Tue")]) !! "ETag"
    = Some "v2".
Proof.
  assert ("ETag" ∉ [("Date", "Tue")].*1) as Hk.
  { simpl. intros H%list_elem_of_singleton. discriminate. }
  split; [exact Hk|].
  exact (proj1 (restructure_last_wins [("ETag", "v1")] [("Date", "Tue")] "ETag" "v2") Hk).
Defined.

Lemma filter_db_without_string_codename_witness :
  (∀ c, PNone ≠ PStr c) ∧ filter_db db PNone = [].
Proof.
  assert (∀ c, PNone ≠ PStr c) as Hn by discriminate.
  split; [exact Hn|]. exact (filter_db_without_string_codename db PNone Hn).
Defined.

Lemma scanned_eq :
  scanned = (Ret (mkRegistry alerts ["USN-42-1"], true), scanned.2).
Proof. vm_compute. reflexivity. Defined.

Lemma scan_appends_reported_ids_witness :
  ∃ rs,
    stdout scanned.2 = map Report rs
    ∧ ["USN-42-1"] = map reported_id rs
    ∧ world scanned.2 = disk "bionic" []
    ∧ requests scanned.2 = [].
Proof.
  destruct (scan_appends_reported_ids cache VersionComparator.version_compare CONFIG
              (filter_db db bionic) (mkRegistry alerts []) (mkRegistry alerts ["USN-42-1"])
              false true (fresh (disk "bionic" [])) scanned.2 scanned_eq)
    as (rs & Hout & Hreg & _ & Hw & Hr & _).
  exists rs. split; [exact Hout|]. split; [exact Hreg|]. split; [exact Hw|exact Hr].
Defined.

Lemma scan_reports_are_vulnerable_witness :
  ∃ rs,
    stdout scanned.2 = map Report rs
    ∧ ∀ x, x ∈ rs →
        cache (name (alert x)) = Some (Some (installed_version x))
        ∧ VersionComparator.version_compare (installed_version x) (version (alert x)) < 0.
Proof.
  destruct (scan_reports_are_vulnerable cache VersionComparator.version_compare CONFIG
              (filter_db db bionic) (mkRegistry alerts []) (mkRegistry alerts ["USN-42-1"])
              false true (fresh (disk "bionic" [])) scanned.2 scanned_eq)
    as (rs & Hout & _ & Hall).
  exists rs. split; [exact Hout|]. intros x Hx. exact (proj2 (Hall x Hx)).
Defined.

Lemma scan_registers_every_vulnerable_witness :
  curl_42 ∈ filter_db db bionic
  ∧ VersionComparator.version_compare "7.58.0-2ubuntu3.6" (version curl_42) < 0
  ∧ is_registered "USN-42-1" (mkRegistry alerts ["USN-42-1"]) = true.
Proof.
  assert (curl_42 ∈ filter_db db bionic) as Hin by (vm_compute; left).
  assert (VersionComparator.version_compare "7.58.0-2ubuntu3.6" (version curl_42) < 0) as Hlt
    by (vm_compute; reflexivity).
  split; [exact Hin|]. split; [exact Hlt|].
  exact (scan_registers_every_vulnerable cache VersionComparator.version_compare CONFIG
           (filter_db db bionic) (mkRegistry alerts []) (mkRegistry alerts ["USN-42-1"])
           false true (fresh (disk "bionic" [])) scanned.2 curl_42 "7.58.0-2ubuntu3.6"
           scanned_eq Hin eq_refl Hlt).
Defined.

Lemma alert_once_keeps_registry_duplicate_free_witness :
  ALERT_ONCE CONFIG = true
  ∧ NoDup (registry (mkRegistry alerts []))
  ∧ NoDup (registry (mkRegistry alerts ["USN-42-1"])).
Proof.
  split; [reflexivity|]. split; [constructor|].
  apply (alert_once_keeps_registry_duplicate_free cache VersionComparator.version_compare
           CONFIG (filter_db db bionic) (mkRegistry alerts []) (mkRegistry alerts ["USN-42-1"])
           false true (fresh (disk "bionic" [])) scanned.2).
  - reflexivity.
  - constructor.
  - exact scanned_eq.
Defined.

Lemma second_run_reports_nothing_witness :
  first_run.1 = SysExit 1
  ∧ second_run = (Ret tt, fresh (world first_run.2)).
Proof.
  assert (first_run.1 = SysExit 1) as Hret by (vm_compute; reflexivity).
  split; [exact Hret|].
  apply (second_run_reports_nothing cache VersionComparator.version_compare CONFIG db bionic
           (disk "bionic" []) first_run.1 first_run.2).
  - reflexivity.
  - apply surjective_pairing.
  - intros e. rewrite Hret. discriminate.
Defined.

Lemma show_age_swallows_errors_witness :
  let s := fresh (disk "bionic" []) in
  files (world s) !! metadata_path CONFIG = None
  ∧ show_age unit parsedate format_age CONFIG s
    = (Ret tt, mkState (world s) [Line "0"] []).
Proof.
  intros s.
  assert (files (world s) !! metadata_path CONFIG = None) as Hf by (vm_compute; reflexivity).
  split; [exact Hf|].
  destruct (show_age_swallows_errors unit parsedate format_age CONFIG s)
    as (out & Hrun & _ & Hmissing & _).
  rewrite Hrun, (Hmissing Hf). reflexivity.
Defined.

Lemma options_keep_persistent_storage_witness :
  PERSISTENT_STORAGE CONFIG = true
  ∧ PERSISTENT_STORAGE show_all = true
  ∧ ALERT_ONCE show_all && negb (PERSISTENT_STORAGE show_all) = false.
Proof.
  split; [reflexivity|].
  apply (options_keep_persistent_storage unit parsedate format_age [] [("-a", "")]
           CONFIG show_all None None (fresh (disk "bionic" [])) (fresh (disk "bionic" []))).
  - reflexivity.
  - vm_compute. reflexivity.
Defined.



